(** * domain-exporter: the paginated fetcher and the listing aggregator

    A shallow embedding of [domain_exporter.go] in its two self-contained
    revisions:

    - the batch exporter ([Collect], with the unguarded pagination loop), and
    - the on-demand exporter ([domainHandler], with the pagination loop
      guarded by [len(listings) < 1000]).

    The third revision keeps the handler of the second and takes the client
    from a package of its own. Module [OnDemand] is the reference for
    [SearchResidential]; module [Batch] has the earlier loop that [Collect]
    calls.

    The upstream API is the environment: it is a transition function on an
    abstract world, and every exchange with it is recorded on a wire trace. *)

From Equations.Prop Require Import Equations Logic.
From stdpp Require Import base option list strings gmap fin_maps pretty.
From Stdlib Require Import ZArith Lia Ascii.

Local Open Scope string_scope.
Local Open Scope list_scope.
Local Open Scope Z_scope.

(** * The program *)

(** ** Data model (the struct declarations at the end of the source file) *)

(** Two structs of the source have fields of the same name; the ones of
    [PropertyDetails] are [PD_State] and [PD_Suburb] here, and the field
    [PropertyDetails] of [PropertyListing] is [Details]. *)

Record LocationFilter := mkLocationFilter {
  State : string;
  Region : string;
  Area : string;
  Suburb : string;
  PostCode : string;
  IncludeSurroundingSuburbs : bool
}.

(** Go's [int] fields are carried as [Z]; the only arithmetic the program does
    on them is [rsr.PageNumber++], written with its wrap-around below. *)
Record ResidentialSearchRequest := mkResidentialSearchRequest {
  ListingType : string;
  MinBedrooms : Z;
  MinBathrooms : Z;
  MinCarspaces : Z;
  PageSize : Z;
  PageNumber : Z;
  Locations : list LocationFilter
}.

Definition set_PageSize (v : Z) (rsr : ResidentialSearchRequest) :=
  mkResidentialSearchRequest (ListingType rsr) (MinBedrooms rsr) (MinBathrooms rsr)
    (MinCarspaces rsr) v (PageNumber rsr) (Locations rsr).

Definition set_PageNumber (v : Z) (rsr : ResidentialSearchRequest) :=
  mkResidentialSearchRequest (ListingType rsr) (MinBedrooms rsr) (MinBathrooms rsr)
    (MinCarspaces rsr) (PageSize rsr) v (Locations rsr).

(** A finite [float32] is a dyadic rational [(-1)^sign * mant * 2^expo]; the
    two infinities and NaN complete the type. *)
Inductive float32 :=
| F32 (sign : bool) (mant : N) (expo : Z)
| F32Inf (sign : bool)
| F32NaN.

Record PropertyDetails := mkPropertyDetails {
  PD_State : string;
  PropertyType : string;
  Bathrooms : float32;
  Bedrooms : float32;
  CarSpaces : Z;
  PD_Suburb : string;
  Postcode : string
}.

Record PropertyListing := mkPropertyListing { Details : PropertyDetails }.
Record SearchResult := mkSearchResult { Listing : PropertyListing }.

(** ** Label formatting: [fmt.Sprintf("%.1f", x)] and [fmt.Sprintf("%v", n)] *)

(** [num / den] rounded to the nearest integer, ties to even: the rounding of
    [strconv]'s exact decimal conversion. *)
Definition round_half_even (num den : N) : N :=
  let q := (num / den)%N in
  let r := (num mod den)%N in
  match (2 * r ?= den)%N with
  | Lt => q
  | Gt => (q + 1)%N
  | Eq => if N.even q then q else (q + 1)%N
  end.

(** The magnitude [mant * 2^expo] in tenths, correctly rounded. *)
Definition tenths (mant : N) (expo : Z) : N :=
  if 0 <=? expo then (10 * mant * 2 ^ Z.to_N expo)%N
  else round_half_even (10 * mant) (2 ^ Z.to_N (- expo)).

(** [fmt.Sprintf("%.1f", x)] for a [float32] argument. *)
Definition Sprintf_1f (x : float32) : string :=
  match x with
  | F32 sign mant expo =>
      let t := tenths mant expo in
      (if sign then "-" else "") +:+ pretty (t / 10)%N +:+ "." +:+ pretty (t mod 10)%N
  | F32Inf sign => if sign then "-Inf" else "+Inf"
  | F32NaN => "NaN"
  end.

(** [fmt.Sprintf("%v", n)] for an [int32] argument. *)
Definition Sprintf_v (n : Z) : string := pretty n.

(** ** The aggregate table: a [prometheus.GaugeVec] with six labels *)

Definition label_names : list string :=
  ["propertytype"; "suburb"; "postcode"; "bedrooms"; "bathrooms"; "carspaces"].

(** The children of the vector, keyed by their label values; a gauge that is
    only ever incremented by one holds an integer. *)
Abbreviation GaugeVec := (gmap (list string) Z).

(** [vec.WithLabelValues(lvs...).Inc()]: the child is created at zero on its
    first use. *)
Definition WithLabelValues_Inc (lvs : list string) (vec : GaugeVec) : GaugeVec :=
  <[lvs := default 0 (vec !! lvs) + 1]> vec.

(** The label values the exporters pass for one listing. *)
Definition label_values (l : SearchResult) : list string :=
  let d := Details (Listing l) in
  [PropertyType d; PD_Suburb d; Postcode d;
   Sprintf_1f (Bedrooms d); Sprintf_1f (Bathrooms d); Sprintf_v (CarSpaces d)].

(** [for _, l := range listings { listingCount.WithLabelValues(...).Inc() }] *)
Definition aggregate (listings : list SearchResult) (listingCount : GaugeVec) : GaugeVec :=
  foldl (fun vec l => WithLabelValues_Inc (label_values l) vec) listingCount listings.

(** The sum of all counts of a table. *)
Definition sum_counts (vec : GaugeVec) : Z := map_fold (fun _ v acc => v + acc) 0 vec.

(** ** Machine integers *)

(** Go's [int] on the 64-bit targets the exporter is built for. *)
Definition wrap_int (z : Z) : Z := (z + 2 ^ 63) mod 2 ^ 64 - 2 ^ 63.

(** [len(s)] as a Go [int]. *)
Definition len {A} (s : list A) : Z := Z.of_nat (length s).

(** ** The upstream and the effects of one call *)

(** What is left of an HTTP response body once it is read. *)
Inductive Body :=
| Unreadable (err : string)            (* reading the stream fails *)
| Malformed (raw : string) (err : string) (* not a JSON array of listings *)
| Listings (page : list SearchResult).

(** The result of [dc.c.Do(req)]. *)
Inductive HttpOutcome :=
| TransportError (err : string)
| Response (StatusCode : Z) (Status : string) (body : Body).

Inductive LogLine :=
| LogMakingRequest (page : Z) (url : string) (detail : option ResidentialSearchRequest)
| LogBody (b : Body)
| LogGotListings (n : Z)
| LogGlobError (err : string)
| LogOpenError (err : string)
| LogSearchError (rsr : ResidentialSearchRequest) (err : string).

Record Exchange := mkExchange {
  sent : ResidentialSearchRequest;
  received : HttpOutcome
}.

Record Effects (World : Type) := mkEffects {
  world : World;
  wire : list Exchange;
  logs : list LogLine
}.
Arguments mkEffects {World}.
Arguments world {World}.
Arguments wire {World}.
Arguments logs {World}.

Definition log_line {World} (l : LogLine) (s : Effects World) : Effects World :=
  mkEffects (world s) (wire s) (logs s ++ [l]).

(** Go's [(value, error)] result pair; [None] is the nil error and the nil
    slice is the empty list. *)
Definition Result (A : Type) : Type := A * option string.

Definition endpoint : string :=
  "https://api.domain.com.au/v1/listings/residential/_search".

Section Client.
Context {World : Type}.
(** The transport: the request is identified with the criteria it
    serialises ([json.Marshal] of this struct cannot fail, nor can
    [http.NewRequest] on the constant URL). *)
Variable Do : ResidentialSearchRequest -> World -> HttpOutcome * World.
(** The two revisions differ in one place only: the on-demand exporter adds
    the criteria ([%+v]) to the line logged before each request. *)
Variable detailed : bool.

Definition roundtrip (rsr : ResidentialSearchRequest) (s : Effects World)
  : HttpOutcome * Effects World :=
  let '(out, w) := Do rsr (world s) in
  (out, mkEffects w (wire s ++ [mkExchange rsr out]) (logs s)).

(** [SearchResidentialPage]: one page request. *)
Definition SearchResidentialPage (rsr : ResidentialSearchRequest) (s : Effects World)
  : Result (list SearchResult) * Effects World :=
  let s := log_line (LogMakingRequest (PageNumber rsr) endpoint
                       (if detailed then Some rsr else None)) s in
  let '(out, s) := roundtrip rsr s in
  match out with
  | TransportError err =>
      (([], Some ("request to " +:+ endpoint +:+ " failed: " +:+ err)), s)
  | Response code status body =>
      if negb (code =? 200) then
        match body with
        | Unreadable err => (([], Some err), s)
        | _ =>
            let s := log_line (LogBody body) s in
            (([], Some ("got non-200 code: " +:+ pretty code +:+ ", " +:+ status)), s)
        end
      else
        match body with
        | Unreadable err | Malformed _ err =>
            (([], Some ("couldn't parse json: " +:+ err)), s)
        | Listings listingsPage =>
            let s := log_line (LogGotListings (len listingsPage)) s in
            ((listingsPage, None), s)
        end
  end.
End Client.

(** ** The on-demand exporter: the guarded pagination loop *)

Module OnDemand.
Section Fetch.
Context {World : Type}.
Variable Do : ResidentialSearchRequest -> World -> HttpOutcome * World.

(** How many more records the guard [len(listings) < 1000] lets in. *)
Definition room (listings : list SearchResult) : nat :=
  Z.to_nat (1000 - len listings).

(** The [for len(listings) < 1000 { ... }] loop of [SearchResidential],
    on the callee's local [rsr] and [listings]. *)
Equations? SearchResidential_loop (rsr : ResidentialSearchRequest)
    (listings : list SearchResult) (s : Effects World)
  : Result (list SearchResult) * Effects World by wf (room listings) lt :=
  SearchResidential_loop rsr listings s with inspect (len listings <? 1000) => {
    | exist _ false _ := ((listings, None), s);
    | exist _ true Hlt with inspect (SearchResidentialPage Do true rsr s) => {
        | exist _ ((_, Some err), s') _ := (([], Some err), s');
        | exist _ (([], None), s') _ := ((listings, None), s');
        | exist _ ((l :: page, None), s') _ :=
            SearchResidential_loop
              (set_PageNumber (wrap_int (PageNumber rsr + 1)) rsr)
              (listings ++ l :: page) s' } }.
Proof.
  unfold room, len in *. rewrite length_app. simpl.
  apply Z.ltb_lt in Hlt. lia.
Qed.

Definition SearchResidential (rsr : ResidentialSearchRequest) (s : Effects World)
  : Result (list SearchResult) * Effects World :=
  let rsr := set_PageSize 200 rsr in
  let rsr := set_PageNumber 0 rsr in
  SearchResidential_loop rsr [] s.
End Fetch.

(** [r.URL.Query()]: the parsed query string. *)
Abbreviation Values := (gmap string (list string)).

(** [url.Values.Get]: the first value of the key, or the empty string. *)
Definition Get (q : Values) (key : string) : string :=
  match q !! key with
  | Some (v :: _) => v
  | _ => ""
  end.

(** The composite literal [rsr] of [domainHandler]; the two fields it does
    not name take their zero value. *)
Definition handler_criteria (q : Values) : ResidentialSearchRequest :=
  {| ListingType := "Rent";
     MinBathrooms := 0;
     MinBedrooms := 0;
     MinCarspaces := 0;
     PageSize := 0;
     PageNumber := 0;
     Locations :=
       [ {| State := Get q "state";
            Area := "";
            Region := "";
            Suburb := Get q "suburb";
            PostCode := Get q "postCode";
            IncludeSurroundingSuburbs := false |} ] |}.

(** What the handler writes to its [http.ResponseWriter]: a status and
    either a text body or the exposition of the request's own registry. *)
Inductive Written :=
| ErrorText (status : Z) (text : string)
| Metrics (status : Z) (listingCount : GaugeVec).

Section Handler.
Context {World : Type}.
Variable Do : ResidentialSearchRequest -> World -> HttpOutcome * World.

Definition domainHandler (q : Values) (s : Effects World) : Written * Effects World :=
  let listingCount : GaugeVec := ∅ in
  let rsr := handler_criteria q in
  let '((listings, err), s) := SearchResidential Do rsr s in
  match err with
  | Some err =>
      let s := log_line (LogSearchError rsr err) s in
      (ErrorText 500 ("error searching domain: " +:+ err), s)
  | None =>
      (Metrics 200 (aggregate listings listingCount), s)
  end.
End Handler.
End OnDemand.

(** ** The batch exporter: the unguarded pagination loop and [Collect] *)

Module Batch.
Section Fetch.
Context {World : Type}.
Variable Do : ResidentialSearchRequest -> World -> HttpOutcome * World.

(** The [for { ... }] loop of [SearchResidential]. Nothing bounds it but the
    upstream serving an empty page or failing, so it runs on fuel: [None]
    is a call that has not returned after [fuel] page requests. *)
Fixpoint SearchResidential_loop (fuel : nat) (rsr : ResidentialSearchRequest)
    (listings : list SearchResult) (s : Effects World)
  : option (Result (list SearchResult) * Effects World) :=
  match fuel with
  | O => None
  | S fuel =>
      let '((listingsPage, err), s) := SearchResidentialPage Do false rsr s in
      match err with
      | Some err => Some (([], Some err), s)
      | None =>
          match listingsPage with
          | [] => Some ((listings, None), s)
          | _ =>
              SearchResidential_loop fuel
                (set_PageNumber (wrap_int (PageNumber rsr + 1)) rsr)
                (listings ++ listingsPage) s
          end
      end
  end.

Definition SearchResidential (fuel : nat) (rsr : ResidentialSearchRequest)
    (s : Effects World) : option (Result (list SearchResult) * Effects World) :=
  let rsr := set_PageSize 200 rsr in
  let rsr := set_PageNumber 0 rsr in
  SearchResidential_loop fuel rsr [] s.

(** One file matched by [searches/*.json]: [os.Open] fails, or the file
    decodes to some criteria (the decoder's own error is dropped by the
    source, which searches with whatever was decoded). *)
Inductive SearchFile :=
| OpenFails (err : string)
| Decodes (rsr : ResidentialSearchRequest).

(** The [for _, m := range matches { ... }] loop of [Collect]. *)
Fixpoint Collect_loop (fuel : nat) (matches : list SearchFile)
    (listingCount : GaugeVec) (s : Effects World)
  : option (GaugeVec * Effects World) :=
  match matches with
  | [] => Some (listingCount, s)
  | m :: matches =>
      match m with
      | OpenFails err =>
          Collect_loop fuel matches listingCount (log_line (LogOpenError err) s)
      | Decodes rsr =>
          match SearchResidential fuel rsr s with
          | None => None
          | Some ((listings, Some err), s) =>
              Collect_loop fuel matches listingCount (log_line (LogSearchError rsr err) s)
          | Some ((listings, None), s) =>
              Collect_loop fuel matches (aggregate listings listingCount) s
          end
      end
  end.

(** [Collect]: what is sent on the metrics channel, i.e. the samples of
    [listingCount]; nothing is sent when the glob fails. *)
Definition Collect (fuel : nat) (glob : Result (list SearchFile)) (s : Effects World)
  : option (GaugeVec * Effects World) :=
  match glob with
  | (_, Some err) => Some (∅, log_line (LogGlobError err) s)
  | (matches, None) => Collect_loop fuel matches ∅ s
  end.

(** The same loop watched for at most [fuel] page requests: the state it has
    reached by then, whether or not the call has returned, and the result if
    it has. A call that never returns has such a state for every [fuel]. *)
Fixpoint SearchResidential_loop_upto (fuel : nat) (rsr : ResidentialSearchRequest)
    (listings : list SearchResult) (s : Effects World)
  : option (Result (list SearchResult)) * Effects World :=
  match fuel with
  | O => (None, s)
  | S fuel =>
      let '((listingsPage, err), s) := SearchResidentialPage Do false rsr s in
      match err with
      | Some err => (Some ([], Some err), s)
      | None =>
          match listingsPage with
          | [] => (Some (listings, None), s)
          | _ =>
              SearchResidential_loop_upto fuel
                (set_PageNumber (wrap_int (PageNumber rsr + 1)) rsr)
                (listings ++ listingsPage) s
          end
      end
  end.

Definition SearchResidential_upto (fuel : nat) (rsr : ResidentialSearchRequest)
    (s : Effects World) : option (Result (list SearchResult)) * Effects World :=
  let rsr := set_PageSize 200 rsr in
  let rsr := set_PageNumber 0 rsr in
  SearchResidential_loop_upto fuel rsr [] s.

(** The loop of [Collect] watched in the same way: it stops where a search
    has not returned after [fuel] page requests. *)
Fixpoint Collect_loop_upto (fuel : nat) (matches : list SearchFile)
    (listingCount : GaugeVec) (s : Effects World)
  : option GaugeVec * Effects World :=
  match matches with
  | [] => (Some listingCount, s)
  | m :: matches =>
      match m with
      | OpenFails err =>
          Collect_loop_upto fuel matches listingCount (log_line (LogOpenError err) s)
      | Decodes rsr =>
          match SearchResidential_upto fuel rsr s with
          | (None, s) => (None, s)
          | (Some (listings, Some err), s) =>
              Collect_loop_upto fuel matches listingCount
                (log_line (LogSearchError rsr err) s)
          | (Some (listings, None), s) =>
              Collect_loop_upto fuel matches (aggregate listings listingCount) s
          end
      end
  end.

Definition Collect_upto (fuel : nat) (glob : Result (list SearchFile)) (s : Effects World)
  : option GaugeVec * Effects World :=
  match glob with
  | (_, Some err) => (Some ∅, log_line (LogGlobError err) s)
  | (matches, None) => Collect_loop_upto fuel matches ∅ s
  end.
End Fetch.
End Batch.

(** ** Passing the criteria by value *)

(** Go's calling convention for [SearchResidential(rsr ResidentialSearchRequest)]
    made explicit: variables of the struct type live in cells, a call copies
    the argument into a fresh cell for the parameter, the body reads and
    assigns that cell only, and the cell dies when the call returns. The
    source never assigns through [rsr.Locations], so the backing array the
    copy shares with the caller is carried as part of the value. *)
Module ByValue.
Section Cells.
Context {World : Type}.
Variable Do : ResidentialSearchRequest -> World -> HttpOutcome * World.

Record Machine := mkMachine {
  cells : gmap nat ResidentialSearchRequest;
  effects : Effects World
}.

(** The zero value of the struct. *)
Definition zero_criteria : ResidentialSearchRequest :=
  mkResidentialSearchRequest "" 0 0 0 0 0 [].

Definition read (p : nat) (m : Machine) : ResidentialSearchRequest :=
  default zero_criteria (cells m !! p).

Definition assign (p : nat) (f : ResidentialSearchRequest -> ResidentialSearchRequest)
    (m : Machine) : Machine :=
  mkMachine (<[p := f (read p m)]> (cells m)) (effects m).

Definition with_effects (s : Effects World) (m : Machine) : Machine :=
  mkMachine (cells m) s.

(** The loop of [SearchResidential] on the parameter cell [p]. *)
Equations? loop (p : nat) (listings : list SearchResult) (m : Machine)
  : Result (list SearchResult) * Machine by wf (OnDemand.room listings) lt :=
  loop p listings m with inspect (len listings <? 1000) => {
    | exist _ false _ := ((listings, None), m);
    | exist _ true Hlt
        with inspect (SearchResidentialPage Do true (read p m) (effects m)) => {
        | exist _ ((_, Some err), s') _ := (([], Some err), with_effects s' m);
        | exist _ (([], None), s') _ := ((listings, None), with_effects s' m);
        | exist _ ((l :: page, None), s') _ :=
            loop p (listings ++ l :: page)
              (assign p (fun rsr => set_PageNumber (wrap_int (PageNumber rsr + 1)) rsr)
                 (with_effects s' m)) } }.
Proof.
  unfold OnDemand.room, len in *. rewrite length_app. simpl.
  pose proof (proj1 (Z.ltb_lt _ _) Hlt). lia.
Qed.

(** A call with the argument read from the caller's cell [arg]:
    [rsr.PageSize = 200], [rsr.PageNumber = 0] and the loop, on the copy. *)
Definition call_SearchResidential (arg : nat) (m : Machine)
  : Result (list SearchResult) * Machine :=
  let p := fresh (dom (cells m)) in
  let m := mkMachine (<[p := read arg m]> (cells m)) (effects m) in
  let m := assign p (set_PageSize 200) m in
  let m := assign p (set_PageNumber 0) m in
  let '(res, m) := loop p [] m in
  (res, mkMachine (delete p (cells m)) (effects m)).
End Cells.
End ByValue.

(** * The vocabulary of the properties *)

(** ** The loop as a big-step relation *)

(** What [SearchResidentialPage] returns for each outcome of the transport. *)
Definition page_result (out : HttpOutcome) : Result (list SearchResult) :=
  match out with
  | TransportError err => ([], Some ("request to " +:+ endpoint +:+ " failed: " +:+ err))
  | Response code status body =>
      if negb (code =? 200) then
        match body with
        | Unreadable err => ([], Some err)
        | _ => ([], Some ("got non-200 code: " +:+ pretty code +:+ ", " +:+ status))
        end
      else
        match body with
        | Unreadable err | Malformed _ err => ([], Some ("couldn't parse json: " +:+ err))
        | Listings listingsPage => (listingsPage, None)
        end
  end.

(** [rsr.PageNumber++] *)
Definition next_page (rsr : ResidentialSearchRequest) : ResidentialSearchRequest :=
  set_PageNumber (wrap_int (PageNumber rsr + 1)) rsr.

(** The loop condition of the two revisions: [Some 1000] is the guard
    [len(listings) < 1000], [None] is the loop without a condition. *)
Definition below (cap : option Z) (listings : list SearchResult) : Prop :=
  match cap with
  | Some c => len listings < c
  | None => True
  end.

Definition reached (cap : option Z) (listings : list SearchResult) : Prop :=
  match cap with
  | Some c => c <= len listings
  | None => False
  end.

Section RunRelation.
Context {World : Type}.
Variable Do : ResidentialSearchRequest -> World -> HttpOutcome * World.
Variable cap : option Z.

(** [Run cap rsr listings w tr res w']: entered with the locals [rsr] and
    [listings] in the world [w], the loop makes the exchanges [tr] and the
    call returns [res], leaving the world [w']. *)
Inductive Run : ResidentialSearchRequest -> list SearchResult -> World ->
                list Exchange -> Result (list SearchResult) -> World -> Prop :=
| Run_cap rsr listings w :
    reached cap listings ->
    Run rsr listings w [] (listings, None) w
| Run_fail rsr listings w out w' page err :
    below cap listings ->
    Do rsr w = (out, w') ->
    page_result out = (page, Some err) ->
    Run rsr listings w [mkExchange rsr out] ([], Some err) w'
| Run_empty rsr listings w out w' :
    below cap listings ->
    Do rsr w = (out, w') ->
    page_result out = ([], None) ->
    Run rsr listings w [mkExchange rsr out] (listings, None) w'
| Run_more rsr listings w out w' page tr res w'' :
    below cap listings ->
    Do rsr w = (out, w') ->
    page_result out = (page, None) ->
    page <> [] ->
    Run (next_page rsr) (listings ++ page) w' tr res w'' ->
    Run rsr listings w (mkExchange rsr out :: tr) res w''.

End RunRelation.

(** The successful, non-empty pages among the exchanges of a call. *)
Definition carries_page (ex : Exchange) : bool :=
  match page_result (received ex) with
  | (_ :: _, None) => true
  | _ => false
  end.

(** The three ways a page request fails: the transport fails, the status is
    not 200, or the body is not a readable JSON array of listings. *)
Definition request_failed (out : HttpOutcome) : bool :=
  match out with
  | TransportError _ => true
  | Response code _ body =>
      negb (code =? 200) || (if body is Listings _ then false else true)
  end.

(** ** Models of the upstream *)

(** Page [n] of the result set [db] cut into pages of [P] records. *)
Definition page_of (P : nat) (db : list SearchResult) (n : Z) : list SearchResult :=
  take P (drop (Z.to_nat n * P) db).

(** The upstream answers a request with the page of [db] it asks for. *)
Definition serves {World} (Do : ResidentialSearchRequest -> World -> HttpOutcome * World)
    (P : nat) (db : list SearchResult) (rsr : ResidentialSearchRequest) : Prop :=
  forall w, exists status w',
    Do rsr w = (Response 200 status (Listings (page_of P db (PageNumber rsr))), w').

(** An upstream holding the records [db] that serves them in pages of [P]. *)
Definition serves_pages {World} (Do : ResidentialSearchRequest -> World -> HttpOutcome * World)
    (P : nat) (db : list SearchResult) : Prop :=
  forall rsr, serves Do P db rsr.

Definition paged_upstream (P : nat) (db : list SearchResult)
    (rsr : ResidentialSearchRequest) (w : unit) : HttpOutcome * unit :=
  (Response 200 "200 OK" (Listings (page_of P db (PageNumber rsr))), w).

(** The search endpoint as the source and the README describe it: it honours
    the requested page size and refuses a page that reaches beyond the first
    1000 records of a result set. *)
Definition domain_search (db : list SearchResult) (rsr : ResidentialSearchRequest)
  : HttpOutcome :=
  if 1000 <? (PageNumber rsr + 1) * PageSize rsr then
    Response 400 "400 Bad Request" (Malformed "Cannot page beyond 1000 records" "invalid character")
  else
    Response 200 "200 OK" (Listings (page_of (Z.to_nat (PageSize rsr)) db (PageNumber rsr))).

Definition domain_api (db : list SearchResult)
    (rsr : ResidentialSearchRequest) (w : unit) : HttpOutcome * unit :=
  (domain_search db rsr, w).

Definition domain_upstream {World} (Do : ResidentialSearchRequest -> World -> HttpOutcome * World)
    (db : list SearchResult) : Prop :=
  forall rsr w, (Do rsr w).1 = domain_search db rsr.

Definition ceil_div (n p : Z) : Z := (n + p - 1) / p.

(** The page requests made between two states of the wire. *)
Definition page_requests {World} (s s' : Effects World) : Z := len (wire s') - len (wire s).


(** An upstream that answers its first [good] requests with pages of [P]
    records of [db] and every later one with a 500. *)
Definition flaky_upstream (good P : nat) (db : list SearchResult)
    (rsr : ResidentialSearchRequest) (calls : nat) : HttpOutcome * nat :=
  if (calls <? good)%nat
  then (Response 200 "200 OK" (Listings (page_of P db (PageNumber rsr))), S calls)
  else (Response 500 "500 Internal Server Error"
          (Malformed "upstream unavailable" "invalid character"), S calls).

(** The number of page requests as the specification counts them: the full
    and partial pages, plus one request for the terminating empty page when
    the record count is a nonzero multiple of the page size. *)
Definition claimed_page_requests (N P : Z) : Z :=
  ceil_div N P + (if (0 <? N) && (N mod P =? 0) then 1 else 0).

(** ** Sample data *)

Definition sample_listing : SearchResult :=
  mkSearchResult (mkPropertyListing
    (mkPropertyDetails "NSW" "ApartmentUnitFlat" (F32 false 5 (-1)) (F32 false 3 0) 1
       "Pyrmont" "2009")).

(** An upstream that has one more record for every request. *)
Definition endless_upstream (rsr : ResidentialSearchRequest) (w : unit)
  : HttpOutcome * unit :=
  (Response 200 "200 OK" (Listings [sample_listing]), w).

Definition sample_criteria : ResidentialSearchRequest :=
  mkResidentialSearchRequest "Rent" 2 1 0 50 7
    [mkLocationFilter "NSW" "" "" "Pyrmont" "2009" false].

Definition quiet : Effects unit := mkEffects tt [] [].

Definition sale_criteria : ResidentialSearchRequest :=
  mkResidentialSearchRequest "Sale" 3 2 1 0 0
    [mkLocationFilter "NSW" "" "" "Glebe" "2037" true].

(** An upstream that fails every "Sale" search and every search of the suburb
    "Atlantis" with a 500, and holds three listings for any other search. *)
Definition unavailable (rsr : ResidentialSearchRequest) : bool :=
  String.eqb (ListingType rsr) "Sale"
  || existsb (fun l => String.eqb (Suburb l) "Atlantis") (Locations rsr).

Definition market_upstream (rsr : ResidentialSearchRequest) (w : unit)
  : HttpOutcome * unit :=
  if unavailable rsr
  then (Response 500 "500 Internal Server Error"
          (Malformed "upstream unavailable" "invalid character"), w)
  else paged_upstream 200 (replicate 3 sample_listing) rsr w.

(** ** Aggregation and scrapes *)

(** The listings of a sequence that fall into one bucket. *)
Definition bucket (lvs : list string) (listings : list SearchResult) : Z :=
  len (filter (fun l => label_values l = lvs) listings).

(** What the searches of a scrape fetch: the listings of the searches that
    succeed, in order; a search that fails adds nothing. *)
Fixpoint fetched_in_scrape {World}
    (Do : ResidentialSearchRequest -> World -> HttpOutcome * World)
    (fuel : nat) (matches : list Batch.SearchFile) (s : Effects World)
  : option (list SearchResult) :=
  match matches with
  | [] => Some []
  | Batch.OpenFails err :: matches =>
      fetched_in_scrape Do fuel matches (log_line (LogOpenError err) s)
  | Batch.Decodes rsr :: matches =>
      match Batch.SearchResidential Do fuel rsr s with
      | None => None
      | Some ((_, Some err), s) =>
          fetched_in_scrape Do fuel matches (log_line (LogSearchError rsr err) s)
      | Some ((listings, None), s) =>
          (fun rest => listings ++ rest) <$> fetched_in_scrape Do fuel matches s
      end
  end.

(** ** Label texts *)

Definition is_digit (c : ascii) : bool :=
  (48 <=? nat_of_ascii c)%nat && (nat_of_ascii c <=? 57)%nat.

Fixpoint all_digits (s : string) : bool :=
  match s with
  | EmptyString => true
  | String c s => is_digit c && all_digits s
  end.

(** Digits, then a point and one digit; [seen] tells that a digit was read. *)
Fixpoint fixed1 (seen : bool) (s : string) : bool :=
  match s with
  | EmptyString => false
  | String c r =>
      match r with
      | String d EmptyString =>
          if Ascii.eqb c "." then seen && is_digit d else is_digit c && fixed1 true r
      | _ => is_digit c && fixed1 true r
      end
  end.

(** The texts of the form [-?[0-9]+\.[0-9]]: exactly one decimal place. *)
Definition has_one_decimal_place (s : string) : bool :=
  match s with
  | String c r => if Ascii.eqb c "-" then fixed1 false r else fixed1 false s
  | EmptyString => false
  end.

(** The texts of the form [-?[0-9]+]: a plain integer. *)
Definition is_plain_integer (s : string) : bool :=
  match s with
  | String c r =>
      if Ascii.eqb c "-" then negb (String.eqb r "") && all_digits r else all_digits s
  | EmptyString => false
  end.

(** [t] tenths is the nearest to the magnitude [mant * 2^expo], and the even
    one of the two nearest on a tie. *)
Definition nearest_tenths (mant : N) (expo : Z) (t : N) : Prop :=
  let num := 10 * Z.of_N mant * 2 ^ Z.max 0 expo in
  let den := 2 ^ Z.max 0 (- expo) in
  Z.abs (2 * num - 2 * Z.of_N t * den) <= den
  /\ (Z.abs (2 * num - 2 * Z.of_N t * den) = den -> Z.even (Z.of_N t) = true).

Definition is_finite (x : float32) : bool :=
  if x is F32 _ _ _ then true else false.

(** [x] is the finite, non-negative value [p / q]. *)
Definition float_is (x : float32) (p q : Z) : Prop :=
  match x with
  | F32 sign mant expo =>
      sign = false
      /\ Z.of_N mant * 2 ^ Z.max 0 expo * q = p * 2 ^ Z.max 0 (- expo)
  | _ => False
  end.

(** [s] is [x] written with one decimal place: an optional sign, the integer
    digits, a point and one digit, for the tenths nearest to [x]. *)
Definition one_decimal_of (x : float32) (s : string) : Prop :=
  exists sign mant expo t,
    x = F32 sign mant expo
    /\ nearest_tenths mant expo t
    /\ s = (if sign then "-" else "") +:+ pretty (t / 10)%N +:+ "." +:+ pretty (t mod 10)%N
    /\ has_one_decimal_place s = true.

(** ** Further vocabulary *)

(** What decides the text of a count: the sign and the tenths of a finite
    value, or which of the three values that are not finite it is. *)
Definition float_key (x : float32) : (bool * N) + option bool :=
  match x with
  | F32 sign mant expo => inl (sign, tenths mant expo)
  | F32Inf sign => inr (Some sign)
  | F32NaN => inr None
  end.

(** Two criteria that differ at most in their paging fields. *)
Definition same_search (a b : ResidentialSearchRequest) : Prop :=
  ListingType a = ListingType b
  /\ MinBedrooms a = MinBedrooms b
  /\ MinBathrooms a = MinBathrooms b
  /\ MinCarspaces a = MinCarspaces b
  /\ Locations a = Locations b.

(** The answer of the upstream to a request does not depend on what it was
    asked before. *)
Definition stateless {World} (Do : ResidentialSearchRequest -> World -> HttpOutcome * World)
  : Prop :=
  forall rsr w w', (Do rsr w).1 = (Do rsr w').1.

(** * Properties *)

(** ** The loop and its runs *)

Section Runs.
Context {World : Type}.
Variable Do : ResidentialSearchRequest -> World -> HttpOutcome * World.

Lemma SearchResidentialPage_spec detailed rsr s :
  exists s',
    SearchResidentialPage Do detailed rsr s = (page_result (Do rsr (world s)).1, s')
    /\ world s' = (Do rsr (world s)).2
    /\ wire s' = wire s ++ [mkExchange rsr (Do rsr (world s)).1].
Proof.
  unfold SearchResidentialPage, roundtrip, page_result. simpl.
  destruct (Do rsr (world s)) as [out w]. simpl.
  destruct out as [err | code status body]; [eauto |].
  destruct (negb (code =? 200)); destruct body; simpl; eauto.
Qed.

(** The guarded loop of the on-demand exporter makes a run under the cap of
    1000. *)
Lemma SearchResidential_loop_Run rsr listings s :
  exists tr,
    Run Do (Some 1000) rsr listings (world s) tr
        (OnDemand.SearchResidential_loop Do rsr listings s).1
        (world (OnDemand.SearchResidential_loop Do rsr listings s).2)
    /\ wire (OnDemand.SearchResidential_loop Do rsr listings s).2 = wire s ++ tr.
Proof.
  funelim (OnDemand.SearchResidential_loop Do rsr listings s);
    try match goal with
        | E : SearchResidentialPage _ _ ?r ?s0 = _ |- _ =>
            destruct (SearchResidentialPage_spec true r s0) as (s1 & Hp & Hw & Ht);
            rewrite E in Hp; injection Hp as Hres <-;
            destruct (Do r (world s0)) as [out w1] eqn:HDo; simpl in *
        end.
  - exists []. simpl. split; [|symmetry; apply app_nil_r].
    apply Run_cap. apply Z.ltb_ge. assumption.
  - eexists. simpl. split; [|exact Ht].
    rewrite Hw. eapply Run_fail; eauto. apply Z.ltb_lt; assumption.
  - eexists. simpl. split; [|exact Ht].
    rewrite Hw. eapply Run_empty; eauto. apply Z.ltb_lt; assumption.
  - match goal with IH : exists _, _ |- _ => destruct IH as (tr & HR & HW) end.
    exists (mkExchange rsr out :: tr). split.
    + rewrite Hw in HR.
      apply Run_more with (w' := w1) (page := l :: page);
        [apply Z.ltb_lt; assumption | exact HDo | congruence | discriminate | exact HR].
    + rewrite HW, Ht, <- app_assoc. reflexivity.
Qed.

Lemma SearchResidential_Run rsr s :
  exists tr,
    Run Do (Some 1000) (set_PageNumber 0 (set_PageSize 200 rsr)) [] (world s) tr
        (OnDemand.SearchResidential Do rsr s).1
        (world (OnDemand.SearchResidential Do rsr s).2)
    /\ wire (OnDemand.SearchResidential Do rsr s).2 = wire s ++ tr.
Proof. apply SearchResidential_loop_Run. Qed.

(** The unguarded loop of the batch exporter, when it returns, has made a
    run without a cap, of no more requests than it had fuel. *)
Lemma Batch_loop_Run fuel rsr listings s res s' :
  Batch.SearchResidential_loop Do fuel rsr listings s = Some (res, s') ->
  exists tr,
    Run Do None rsr listings (world s) tr res (world s')
    /\ wire s' = wire s ++ tr
    /\ (length tr <= fuel)%nat.
Proof.
  revert rsr listings s.
  induction fuel as [|fuel IH]; intros rsr listings s Hr; [done |].
  simpl in Hr.
  destruct (SearchResidentialPage_spec false rsr s) as (s1 & Hp & Hw & Ht).
  rewrite Hp in Hr. destruct (Do rsr (world s)) as [out w1] eqn:HDo. simpl in *.
  destruct (page_result out) as [page [err|]] eqn:Hpage.
  - injection Hr as <- <-. eexists. split; [| split; [exact Ht | simpl; lia]].
    rewrite Hw. by eapply Run_fail.
  - destruct page as [|l page].
    + injection Hr as <- <-. eexists. split; [| split; [exact Ht | simpl; lia]].
      rewrite Hw. by eapply Run_empty.
    + destruct (IH _ _ _ Hr) as (tr & HR & HW & Hlen).
      exists (mkExchange rsr out :: tr). split; [| split].
      * rewrite Hw in HR. by eapply Run_more.
      * rewrite HW, Ht, <- app_assoc. reflexivity.
      * simpl. lia.
Qed.

Lemma Batch_SearchResidential_Run fuel rsr s res s' :
  Batch.SearchResidential Do fuel rsr s = Some (res, s') ->
  exists tr,
    Run Do None (set_PageNumber 0 (set_PageSize 200 rsr)) [] (world s) tr res (world s')
    /\ wire s' = wire s ++ tr
    /\ (length tr <= fuel)%nat.
Proof. apply Batch_loop_Run. Qed.

(** Each iteration that goes round again leaves less room under the guard. *)
Lemma room_decreases (listings page : list SearchResult) :
  len listings < 1000 -> page <> [] ->
  (OnDemand.room (listings ++ page) < OnDemand.room listings)%nat.
Proof.
  intros Hlt Hne. unfold OnDemand.room, len in *. rewrite length_app.
  destruct page; [done | simpl; lia].
Qed.

Lemma Run_length rsr listings w tr res w' :
  Run Do (Some 1000) rsr listings w tr res w' ->
  (length tr <= OnDemand.room listings)%nat.
Proof.
  induction 1 as [ | ? ? ? ? ? ? ? Hlt | ? ? ? ? ? Hlt
                 | ? listings ? ? ? page ? ? ? Hlt ? ? Hne ? IH ]; simpl in *.
  - lia.
  - unfold OnDemand.room. lia.
  - unfold OnDemand.room. lia.
  - pose proof (room_decreases listings page Hlt Hne). lia.
Qed.

Lemma Run_nonempty rsr listings w tr res w' :
  Run Do (Some 1000) rsr listings w tr res w' -> len listings < 1000 -> tr <> [].
Proof. destruct 1; simpl in *; intros Hlt; [lia | done | done | done]. Qed.

Lemma wrap_int_small z : - 2 ^ 63 <= z < 2 ^ 63 -> wrap_int z = z.
Proof.
  intros Hz. unfold wrap_int.
  change (2 ^ 64) with (2 * 2 ^ 63). rewrite Z.mod_small; lia.
Qed.

Lemma next_page_small rsr :
  0 <= PageNumber rsr < 2 ^ 63 - 1 ->
  next_page rsr = set_PageNumber (PageNumber rsr + 1) rsr.
Proof. intros Hp. unfold next_page. rewrite wrap_int_small; [done | lia]. Qed.

(** A call that returns fewer than 1000 records without error was ended by
    an empty page. *)
Lemma Run_last_empty rsr listings w tr res w' :
  Run Do (Some 1000) rsr listings w tr res w' ->
  res.2 = None -> len res.1 < 1000 ->
  exists ex, last tr = Some ex /\ page_result (received ex) = ([], None).
Proof.
  induction 1 as [ | ? ? ? ? ? ? ? Hlt ? Hp | ? ? ? out ? Hlt ? Hp
                 | ? listings ? out ? page ? ? ? Hlt ? Hp Hne HR IH ];
    simpl in *; intros He Hlen; try discriminate.
  - lia.
  - eexists. split; [done | exact Hp].
  - destruct (IH He Hlen) as (ex & Hl & Hex). exists ex.
    split; [| done]. rewrite last_cons, Hl. done.
Qed.

(** *** With or without the cap *)

Variable cap : option Z.

(** Every request of a call but the last was answered with a non-empty
    page. *)
Lemma Run_carries rsr listings w tr res w' :
  Run Do cap rsr listings w tr res w' ->
  forall i ex, tr !! i = Some ex -> (S i < length tr)%nat -> carries_page ex = true.
Proof.
  induction 1 as [ | ? ? ? ? ? ? ? Hlt ? Hp | ? ? ? ? ? Hlt ? Hp
                 | ? listings ? out ? page ? ? ? Hlt ? Hp Hne ? IH ].
  - intros i ex Hi; by destruct i.
  - intros [|i] ex Hi Hlen; simpl in *; lia.
  - intros [|i] ex Hi Hlen; simpl in *; lia.
  - intros [|i] ex Hi Hlen; simpl in *.
    + injection Hi as <-. unfold carries_page. simpl. rewrite Hp.
      by destruct page.
    + apply (IH i); [done | lia].
Qed.

(** The requests of a call carry consecutive page numbers and are otherwise
    the callee's [rsr]. *)
Lemma Run_sent rsr listings w tr res w' :
  Run Do cap rsr listings w tr res w' ->
  0 <= PageNumber rsr ->
  PageNumber rsr + len tr < 2 ^ 63 ->
  forall i ex, tr !! i = Some ex ->
    sent ex = set_PageNumber (PageNumber rsr + Z.of_nat i) rsr.
Proof.
  induction 1 as [ | rsr ? ? ? ? ? ? Hlt ? Hp | rsr ? ? ? ? Hlt ? Hp
                 | rsr listings ? out ? page ? ? ? Hlt ? Hp Hne HR IH ];
    intros H0 Hroom i ex Hi; unfold len in *; simpl in Hroom.
  - by destruct i.
  - destruct i as [|i]; [|by destruct i]. injection Hi as <-. simpl.
    rewrite Z.add_0_r. by destruct rsr.
  - destruct i as [|i]; [|by destruct i]. injection Hi as <-. simpl.
    rewrite Z.add_0_r. by destruct rsr.
  - destruct i as [|i]; simpl in Hi.
    + injection Hi as <-. simpl. rewrite Z.add_0_r. by destruct rsr.
    + rewrite next_page_small in IH by lia.
      rewrite (IH ltac:(simpl; lia) ltac:(simpl; lia) i ex Hi).
      unfold set_PageNumber. simpl. f_equal. lia.
Qed.

(** A call that succeeds returns what it was entered with followed by the
    pages it fetched, in order. *)
Lemma Run_success rsr listings w tr res w' :
  Run Do cap rsr listings w tr res w' ->
  res.2 = None ->
  res.1 = listings ++ concat (map (fun ex => (page_result (received ex)).1) tr).
Proof.
  induction 1 as [ | ? ? ? ? ? ? ? Hlt ? Hp | ? ? ? ? ? Hlt ? Hp
                 | ? listings ? out ? page ? ? ? Hlt ? Hp Hne HR IH ];
    simpl; intros He; try discriminate.
  - by rewrite app_nil_r.
  - rewrite Hp. simpl. by rewrite app_nil_r.
  - rewrite (IH He), Hp. simpl. by rewrite <- app_assoc.
Qed.

(** A failed page request ends the call: it is the last exchange, and its
    error is returned with no records. *)
Lemma Run_failure rsr listings w tr res w' :
  Run Do cap rsr listings w tr res w' ->
  forall ex page err,
    ex ∈ tr -> page_result (received ex) = (page, Some err) ->
    res = ([], Some err) /\ last tr = Some ex.
Proof.
  induction 1 as [ | ? ? ? ? ? ? ? Hlt ? Hp | ? ? ? ? ? Hlt ? Hp
                 | ? listings ? out ? page ? ? ? Hlt ? Hp Hne HR IH ];
    intros ex pg e Hin Hex.
  - by apply elem_of_nil in Hin.
  - apply list_elem_of_singleton in Hin as ->. simpl in Hex.
    rewrite Hp in Hex. by injection Hex as _ ->.
  - apply list_elem_of_singleton in Hin as ->. simpl in Hex. congruence.
  - apply elem_of_cons in Hin as [-> | Hin].
    + simpl in Hex. congruence.
    + destruct (IH _ _ _ Hin Hex) as [-> Hlast]. split; [done |].
      rewrite last_cons, Hlast. done.
Qed.


(** A call that returns an error made a request that failed with it. *)
Lemma Run_error rsr listings w tr res w' err :
  Run Do cap rsr listings w tr res w' ->
  res.2 = Some err ->
  exists ex page, last tr = Some ex /\ page_result (received ex) = (page, Some err).
Proof.
  induction 1 as [ | ? ? ? ? ? ? ? Hlt ? Hp | ? ? ? ? ? Hlt ? Hp
                 | ? listings ? out ? page ? ? ? Hlt ? Hp Hne HR IH ];
    simpl; intros He; try discriminate.
  - injection He as ->. eexists _, _. split; [done | exact Hp].
  - destruct (IH He) as (ex & pg & Hl & Hpg). exists ex, pg.
    split; [| done]. rewrite last_cons, Hl. done.
Qed.
End Runs.

(** Under the cap no more than 1000 requests carry a page. *)
Lemma Run_pages {World}
    (Do : ResidentialSearchRequest -> World -> HttpOutcome * World)
    rsr listings w tr res w' :
  Run Do (Some 1000) rsr listings w tr res w' ->
  (length (filter (fun ex => carries_page ex = true) tr) <= OnDemand.room listings)%nat
  /\ forall i ex, tr !! i = Some ex -> (S i < length tr)%nat -> carries_page ex = true.
Proof.
  intros HR. split; [| exact (Run_carries Do _ _ _ _ _ _ _ HR)].
  pose proof (Run_length Do _ _ _ _ _ _ HR) as Hlen.
  etrans; [apply length_filter | exact Hlen].
Qed.

(** Under the cap the page number cannot wrap around. *)
Lemma Run_sent_capped {World}
    (Do : ResidentialSearchRequest -> World -> HttpOutcome * World)
    rsr listings w tr res w' :
  Run Do (Some 1000) rsr listings w tr res w' ->
  0 <= PageNumber rsr <= 2 ^ 62 ->
  forall i ex, tr !! i = Some ex ->
    sent ex = set_PageNumber (PageNumber rsr + Z.of_nat i) rsr.
Proof.
  intros HR Hp. apply (Run_sent Do _ _ _ _ _ _ _ HR); [lia |].
  pose proof (Run_length Do _ _ _ _ _ _ HR) as Hlen.
  unfold OnDemand.room, len in *. lia.
Qed.

Lemma ceil_div_unique n p c :
  0 < p -> n <= c * p < n + p -> ceil_div n p = c.
Proof.
  intros Hp Hc. unfold ceil_div. symmetry.
  apply (Z.div_unique _ _ _ (n + p - 1 - c * p)); lia.
Qed.

Lemma page_of_nil P db (k : nat) :
  (0 < P)%nat -> page_of P db (Z.of_nat k) = [] -> (length db <= k * P)%nat.
Proof.
  unfold page_of. rewrite Nat2Z.id. intros HP Hnil.
  apply take_nil_inv in Hnil as [-> | Hd]; [lia |].
  by apply drop_nil_inv.
Qed.

Lemma page_of_cons P db (k : nat) :
  page_of P db (Z.of_nat k) <> [] -> (k * P < length db)%nat.
Proof.
  unfold page_of. rewrite Nat2Z.id. intros Hne.
  destruct (decide (k * P < length db)%nat) as [|Hge]; [done |].
  rewrite drop_ge, take_nil in Hne by lia. done.
Qed.

Lemma take_page_of P db (k : nat) :
  take (k * P) db ++ page_of P db (Z.of_nat k) = take (S k * P) db.
Proof.
  unfold page_of. rewrite Nat2Z.id, take_take_drop. f_equal. lia.
Qed.

Section Paging.
Context {World : Type}.
Variable Do : ResidentialSearchRequest -> World -> HttpOutcome * World.
Variable P : nat.
Variable db : list SearchResult.
Hypothesis P_pos : (0 < P)%nat.

Lemma served_page rsr w out w' :
  serves Do P db rsr -> Do rsr w = (out, w') ->
  page_result out = (page_of P db (PageNumber rsr), None).
Proof.
  intros Hs HDo. destruct (Hs w) as (status & w1 & E).
  rewrite E in HDo. by injection HDo as <- _.
Qed.

(** As long as the cap is out of reach, the loop walks through every page
    and stops at the first empty one. *)
Lemma Run_every_page cap rsr listings w tr res w' :
  Run Do cap rsr listings w tr res w' ->
  serves_pages Do P db ->
  (forall l : list SearchResult, (length l <= length db)%nat -> below cap l) ->
  len db < 2 ^ 63 - 1 ->
  forall k : nat,
    PageNumber rsr = Z.of_nat k ->
    listings = take (k * P) db ->
    (k * P < length db + P)%nat ->
    res = (db, None)
    /\ exists c : nat, (length db <= c * P < length db + P)%nat
                       /\ (length tr + k = c + 1)%nat.
Proof.
  intros HR Hs Hbelow HN. unfold len in HN.
  induction HR as [ rsr listings w Hcap
                  | rsr listings w out w' page err Hlt HDo Hp
                  | rsr listings w out w' Hlt HDo Hp
                  | rsr listings w out w' page tr res w'' Hlt HDo Hp Hne HR IH ];
    intros k Hk -> Hinv.
  - exfalso. specialize (Hbelow (take (k * P) db)).
    rewrite length_take in Hbelow. specialize (Hbelow ltac:(lia)).
    destruct cap; simpl in *; [lia | done].
  - rewrite (served_page _ _ _ _ (Hs rsr) HDo) in Hp. discriminate.
  - rewrite (served_page _ _ _ _ (Hs rsr) HDo), Hk in Hp.
    injection Hp as Hp. apply page_of_nil in Hp; [|done].
    split; [by rewrite take_ge | exists k; simpl; lia].
  - rewrite (served_page _ _ _ _ (Hs rsr) HDo), Hk in Hp.
    injection Hp as <-. apply page_of_cons in Hne as Hk'.
    rewrite take_page_of in IH.
    destruct (IH (S k)) as (-> & c & Hc & Hlen).
    + rewrite next_page_small by nia. simpl. lia.
    + done.
    + simpl. lia.
    + split; [done |]. exists c. simpl. lia.
Qed.

(** Below the cap of 1000 in particular. *)
Lemma Run_below_cap rsr listings w tr res w' :
  Run Do (Some 1000) rsr listings w tr res w' ->
  serves_pages Do P db ->
  (length db < 1000)%nat ->
  forall k : nat,
    PageNumber rsr = Z.of_nat k ->
    listings = take (k * P) db ->
    (k * P < length db + P)%nat ->
    res = (db, None)
    /\ exists c : nat, (length db <= c * P < length db + P)%nat
                       /\ (length tr + k = c + 1)%nat.
Proof.
  intros HR Hs HN. apply (Run_every_page _ _ _ _ _ _ _ HR Hs).
  - intros l Hl. simpl. unfold len. lia.
  - unfold len. lia.
Qed.

(** Given fuel for every page and the empty one after them, the unguarded
    loop returns. *)
Lemma Batch_loop_returns (d k fuel : nat) rsr (s : Effects World) :
  serves_pages Do P db ->
  PageNumber rsr = Z.of_nat k ->
  Z.of_nat k + Z.of_nat d < 2 ^ 63 - 1 ->
  (length db <= (k + d) * P)%nat ->
  (d < fuel)%nat ->
  exists s',
    Batch.SearchResidential_loop Do fuel rsr (take (k * P) db) s = Some ((db, None), s').
Proof.
  intros Hs. revert k fuel rsr s.
  induction d as [|d IH]; intros k fuel rsr s Hk Hsmall Hlen Hfuel;
    (destruct fuel as [|fuel]; [lia |]); simpl;
    destruct (SearchResidentialPage_spec Do false rsr s) as (s1 & Hp & _ & _);
    rewrite Hp; destruct (Do rsr (world s)) as [out w1] eqn:HDo; simpl;
    rewrite (served_page _ _ _ _ (Hs rsr) HDo), Hk.
  - assert (page_of P db (Z.of_nat k) = []) as ->.
    { unfold page_of. rewrite Nat2Z.id, drop_ge, take_nil by lia. done. }
    exists s1. rewrite take_ge by lia. done.
  - destruct (page_of P db (Z.of_nat k)) as [|l page] eqn:Hpage.
    + apply page_of_nil in Hpage; [| done].
      exists s1. rewrite take_ge by lia. done.
    + rewrite <- Hpage, take_page_of.
      apply (IH (S k)); [| lia | lia | lia].
      unfold set_PageNumber. simpl. rewrite wrap_int_small by lia. lia.
Qed.

(** At or above the cap the loop stops by its guard, after the first page
    that brings the accumulated records to 1000 or more; it needs the
    upstream only for the pages that start below record 1000. *)
Lemma Run_at_cap rsr listings w tr res w' (ps : Z) :
  Run Do (Some 1000) rsr listings w tr res w' ->
  (forall rsr', PageSize rsr' = ps -> 0 <= PageNumber rsr' ->
                PageNumber rsr' * Z.of_nat P < 1000 -> serves Do P db rsr') ->
  (1000 <= length db)%nat ->
  forall k : nat,
    PageNumber rsr = Z.of_nat k ->
    PageSize rsr = ps ->
    listings = take (k * P) db ->
    (k * P < 1000 + P)%nat ->
    exists c : nat, (1000 <= c * P < 1000 + P)%nat
                    /\ res = (take (c * P) db, None)
                    /\ (length tr + k = c)%nat.
Proof.
  intros HR Hs HN.
  induction HR as [ rsr listings w Hcap
                  | rsr listings w out w' page err Hlt HDo Hp
                  | rsr listings w out w' Hlt HDo Hp
                  | rsr listings w out w' page tr res w'' Hlt HDo Hp Hne HR IH ];
    intros k Hk Hps -> Hinv; cbn [reached below] in *; unfold len in *;
    rewrite length_take in *.
  - exists k. simpl. split; [lia | done].
  - rewrite (served_page _ _ _ _ (Hs rsr Hps ltac:(lia) ltac:(lia)) HDo) in Hp.
    discriminate.
  - rewrite (served_page _ _ _ _ (Hs rsr Hps ltac:(lia) ltac:(lia)) HDo), Hk in Hp.
    injection Hp as Hp. apply page_of_nil in Hp; [lia | done].
  - rewrite (served_page _ _ _ _ (Hs rsr Hps ltac:(lia) ltac:(lia)) HDo), Hk in Hp.
    injection Hp as <-.
    rewrite take_page_of in IH.
    destruct (IH (S k)) as (c & Hc & -> & Hlen).
    + rewrite next_page_small by nia. simpl. lia.
    + by destruct rsr.
    + done.
    + simpl. nia.
    + exists c. simpl. split; [done |]. split; [done | lia].
Qed.
End Paging.

Section LoopEquations.
Context {World : Type}.
Variable Do : ResidentialSearchRequest -> World -> HttpOutcome * World.

(** The guard fails: the loop is left and the accumulated records are
    returned. *)
Lemma SearchResidential_loop_exit rsr listings (s : Effects World) :
  1000 <= len listings ->
  OnDemand.SearchResidential_loop Do rsr listings s = ((listings, None), s).
Proof.
  intros Hcap. funelim (OnDemand.SearchResidential_loop Do rsr listings s);
    try reflexivity;
    match goal with
    | H : (len _ <? 1000) = true |- _ => pose proof (proj1 (Z.ltb_lt _ _) H); lia
    end.
Qed.

(** The guard holds: one iteration of the loop body. *)
Lemma SearchResidential_loop_step rsr listings (s : Effects World) :
  len listings < 1000 ->
  OnDemand.SearchResidential_loop Do rsr listings s
  = let '((listingsPage, err), s1) := SearchResidentialPage Do true rsr s in
    match err with
    | Some err => (([], Some err), s1)
    | None =>
        match listingsPage with
        | [] => ((listings, None), s1)
        | _ => OnDemand.SearchResidential_loop Do (next_page rsr)
                 (listings ++ listingsPage) s1
        end
    end.
Proof.
  intros Hlt. funelim (OnDemand.SearchResidential_loop Do rsr listings s);
    try match goal with
        | E : SearchResidentialPage _ _ _ _ = _ |- _ => rewrite E; reflexivity
        end.
  match goal with
  | H : (len _ <? 1000) = false |- _ => pose proof (proj1 (Z.ltb_ge _ _) H); lia
  end.
Qed.
End LoopEquations.

(** ** Page requests of one call *)

Lemma page_requests_app {World} (s s' : Effects World) tr :
  wire s' = wire s ++ tr -> page_requests s s' = len tr.
Proof. intros E. unfold page_requests, len. rewrite E, length_app. lia. Qed.

(** C1 (as amended): with at most 1000 records upstream, served in pages of
    [P], [SearchResidential] returns exactly those records. Below 1000
    records it makes [ceil(N/P) + 1] page requests: the loop only stops at an
    empty page, so the extra request is made whether or not [N] is a
    multiple of [P]. At exactly 1000 records it makes [ceil(N/P)] requests,
    the guard ending the loop without an empty page. Where the record count
    is a nonzero multiple of [P] below 1000 this is the count the
    specification gives. Below 1000 records the last request is the first
    one answered with an empty page. *)
Theorem SearchResidential_page_requests {World}
    (Do : ResidentialSearchRequest -> World -> HttpOutcome * World)
    (P : nat) (db : list SearchResult) (rsr : ResidentialSearchRequest)
    (s : Effects World) :
  (0 < P)%nat ->
  serves_pages Do P db ->
  len db <= 1000 ->
  (OnDemand.SearchResidential Do rsr s).1 = (db, None)
  /\ page_requests s (OnDemand.SearchResidential Do rsr s).2
     = (if len db <? 1000 then ceil_div (len db) (Z.of_nat P) + 1
        else ceil_div (len db) (Z.of_nat P))
  /\ (0 < len db < 1000 -> len db mod Z.of_nat P = 0 ->
      page_requests s (OnDemand.SearchResidential Do rsr s).2
      = claimed_page_requests (len db) (Z.of_nat P))
  /\ (len db < 1000 ->
      exists tr ex,
        wire (OnDemand.SearchResidential Do rsr s).2 = wire s ++ tr
        /\ last tr = Some ex
        /\ page_result (received ex) = ([], None)
        /\ forall i ex', tr !! i = Some ex' -> (S i < length tr)%nat ->
              carries_page ex' = true).
Proof.
  intros HP Hs HN.
  destruct (SearchResidential_Run Do rsr s) as (tr & HR & Hw).
  rewrite (page_requests_app _ _ _ Hw).
  assert ((OnDemand.SearchResidential Do rsr s).1 = (db, None)
          /\ len tr = (if len db <? 1000 then ceil_div (len db) (Z.of_nat P) + 1
                       else ceil_div (len db) (Z.of_nat P))) as [Hres Hlen].
  { unfold len in *. destruct (Z.ltb_spec (Z.of_nat (length db)) 1000) as [Hlt | Hge].
    - destruct (Run_below_cap Do P db HP _ _ _ _ _ _ HR Hs ltac:(lia) 0%nat)
        as (Hres & c & Hc & Hl); [done | done | lia |].
      split; [done |].
      rewrite (ceil_div_unique _ _ (Z.of_nat c)); lia.
    - destruct (Run_at_cap Do P db HP _ _ _ _ _ _ 200 HR) with (k := 0%nat)
        as (c & Hc & Hres & Hl); [by intros | lia | done | done | done | lia |].
      split; [by rewrite Hres, take_ge by lia |].
      rewrite (ceil_div_unique _ _ (Z.of_nat c)); lia. }
  split; [done |]. split; [done |]. split.
  - intros Hpos Hmod. rewrite Hlen. unfold claimed_page_requests.
    destruct (Z.ltb_spec (len db) 1000); [| lia].
    destruct (Z.ltb_spec 0 (len db)); [| lia].
    rewrite Hmod. done.
  - intros Hlt. rewrite Hres in HR.
    destruct (Run_last_empty Do _ _ _ _ _ _ HR eq_refl Hlt) as (ex & Hl & Hex).
    exists tr, ex. split; [done |]. split; [done |]. split; [done |].
    apply (Run_pages Do _ _ _ _ _ _ HR).
Qed.

Lemma SearchResidential_page_requests_witness :
  (OnDemand.SearchResidential (paged_upstream 200 (replicate 400 sample_listing))
     sample_criteria quiet).1 = (replicate 400 sample_listing, None)
  /\ page_requests quiet
       (OnDemand.SearchResidential (paged_upstream 200 (replicate 400 sample_listing))
          sample_criteria quiet).2 = 3.
Proof.
  destruct (SearchResidential_page_requests
              (paged_upstream 200 (replicate 400 sample_listing)) 200
              (replicate 400 sample_listing) sample_criteria quiet)
    as (Hres & Hreq & _ & _).
  - lia.
  - intros rsr w. exists "200 OK", w. reflexivity.
  - vm_compute. discriminate.
  - split; [exact Hres | exact Hreq].
Defined.

(** The scenario of the specification: two pages of 200 records, then an
    empty page. *)
Example two_full_pages_then_empty :
  let '(res, s) := OnDemand.SearchResidential
                     (paged_upstream 200 (replicate 400 sample_listing))
                     sample_criteria quiet in
  len res.1 = 400 /\ res.2 = None /\ len (wire s) = 3
  /\ map (fun ex => len (page_result (received ex)).1) (wire s) = [200; 200; 0].
Proof. vm_compute. done. Qed.

(** C1 (as stated) fails: three records in pages of 200 take two requests,
    not one, and 1000 records in pages of 200 take five, not six. *)
Lemma claimed_page_requests_counterexample :
  ~ (forall (P : nat) (db : list SearchResult) (rsr : ResidentialSearchRequest),
       (0 < P)%nat -> len db <= 1000 ->
       page_requests quiet (OnDemand.SearchResidential (paged_upstream P db) rsr quiet).2
       = claimed_page_requests (len db) (Z.of_nat P)).
Proof.
  intros H.
  pose proof (H 200%nat (replicate 3 sample_listing) sample_criteria
                ltac:(lia) ltac:(vm_compute; discriminate)) as H3.
  vm_compute in H3. discriminate.
Qed.

Example three_records_two_requests :
  page_requests quiet
    (OnDemand.SearchResidential (paged_upstream 200 (replicate 3 sample_listing))
       sample_criteria quiet).2 = 2
  /\ claimed_page_requests 3 200 = 1.
Proof. vm_compute. done. Qed.

Example no_records_one_request :
  page_requests quiet
    (OnDemand.SearchResidential (paged_upstream 200 []) sample_criteria quiet).2 = 1
  /\ claimed_page_requests 0 200 = 0.
Proof. vm_compute. done. Qed.

Example thousand_records_five_requests :
  page_requests quiet
    (OnDemand.SearchResidential (paged_upstream 200 (replicate 1000 sample_listing))
       sample_criteria quiet).2 = 5
  /\ claimed_page_requests 1000 200 = 6.
Proof. vm_compute. done. Qed.

(** ** The cap *)






(** ** Aggregation *)

Lemma sum_counts_empty : sum_counts (∅ : GaugeVec) = 0.
Proof. unfold sum_counts. apply map_fold_empty. Qed.

Lemma sum_counts_insert_fresh (vec : GaugeVec) (lvs : list string) (v : Z) :
  vec !! lvs = None -> sum_counts (<[lvs := v]> vec) = v + sum_counts vec.
Proof.
  intros Hfresh. unfold sum_counts.
  rewrite map_fold_insert_L; [done | intros; lia | done].
Qed.

Lemma sum_counts_delete (vec : GaugeVec) (lvs : list string) (v : Z) :
  vec !! lvs = Some v -> sum_counts vec = v + sum_counts (delete lvs vec).
Proof.
  intros Hin. unfold sum_counts.
  rewrite (map_fold_delete_L _ _ lvs v vec); [done | intros; lia | done].
Qed.

Lemma sum_counts_Inc (lvs : list string) (vec : GaugeVec) :
  sum_counts (WithLabelValues_Inc lvs vec) = sum_counts vec + 1.
Proof.
  unfold WithLabelValues_Inc. destruct (vec !! lvs) as [v|] eqn:E; simpl.
  - rewrite <- insert_delete_eq, sum_counts_insert_fresh by apply lookup_delete_eq.
    rewrite (sum_counts_delete vec lvs v E). lia.
  - rewrite sum_counts_insert_fresh by done. lia.
Qed.

Lemma sum_counts_aggregate (listings : list SearchResult) (vec : GaugeVec) :
  sum_counts (aggregate listings vec) = sum_counts vec + len listings.
Proof.
  unfold aggregate, len. revert vec.
  induction listings as [|l listings IH]; intros vec; simpl.
  - lia.
  - rewrite IH, sum_counts_Inc. lia.
Qed.

Lemma lookup_Inc (lvs lvs' : list string) (vec : GaugeVec) :
  default 0 (WithLabelValues_Inc lvs vec !! lvs')
  = default 0 (vec !! lvs') + (if decide (lvs = lvs') then 1 else 0).
Proof.
  unfold WithLabelValues_Inc. rewrite lookup_insert.
  case_decide as E; [subst; simpl; lia | lia].
Qed.

Lemma lookup_aggregate (lvs : list string) (listings : list SearchResult) (vec : GaugeVec) :
  default 0 (aggregate listings vec !! lvs)
  = default 0 (vec !! lvs) + bucket lvs listings.
Proof.
  unfold aggregate, bucket, len. revert vec.
  induction listings as [|l listings IH]; intros vec.
  - simpl. lia.
  - rewrite filter_cons. simpl foldl. rewrite IH, lookup_Inc.
    case_decide; simpl length; lia.
Qed.

Lemma aggregate_positive (listings : list SearchResult) (vec : GaugeVec) :
  (forall (lvs : list string) v, vec !! lvs = Some v -> 0 < v) ->
  forall (lvs : list string) v, aggregate listings vec !! lvs = Some v -> 0 < v.
Proof.
  unfold aggregate. revert vec.
  induction listings as [|l listings IH]; intros vec Hvec; [exact Hvec |].
  simpl. apply IH. intros lvs v. unfold WithLabelValues_Inc.
  rewrite lookup_insert. case_decide as E; [| apply Hvec].
  intros [= <-]. destruct (vec !! label_values l) as [v'|] eqn:Hv; simpl; [| lia].
  specialize (Hvec _ _ Hv). lia.
Qed.

(** C3: aggregating [N] listings into a fresh table gives counts that sum to
    [N]; each bucket counts exactly the listings that carry its label values,
    a bucket exists only if some listing falls into it, and the empty
    sequence leaves the fresh table empty. *)
Theorem aggregate_counts_every_listing (listings : list SearchResult) :
  sum_counts (aggregate listings ∅) = len listings
  /\ (forall lvs : list string, default 0 (aggregate listings ∅ !! lvs) = bucket lvs listings)
  /\ (forall (lvs : list string) v, aggregate listings ∅ !! lvs = Some v -> 0 < v)
  /\ aggregate [] ∅ = (∅ : GaugeVec).
Proof.
  split; [| split; [| split]].
  - rewrite sum_counts_aggregate, sum_counts_empty. lia.
  - intros lvs. rewrite lookup_aggregate, lookup_empty. simpl. lia.
  - apply aggregate_positive. intros lvs v. by rewrite lookup_empty.
  - done.
Qed.

(** ** Failure of a page request *)

Lemma request_failed_error out :
  request_failed out = true <-> exists err, page_result out = ([], Some err).
Proof.
  destruct out as [e | code status body]; simpl.
  - split; [eauto | done].
  - destruct (negb (code =? 200)); destruct body; simpl;
      split; try done; eauto; intros [? ?]; discriminate.
Qed.

(** C4: whichever page request of a call fails, and however many pages came
    before it, the call makes no further request and returns that request's
    error with no records. *)
Theorem SearchResidential_aborts_on_failure {World}
    (Do : ResidentialSearchRequest -> World -> HttpOutcome * World)
    (rsr : ResidentialSearchRequest) (s : Effects World)
    (tr : list Exchange) (ex : Exchange) :
  wire (OnDemand.SearchResidential Do rsr s).2 = wire s ++ tr ->
  ex ∈ tr ->
  request_failed (received ex) = true ->
  exists err,
    page_result (received ex) = ([], Some err)
    /\ (OnDemand.SearchResidential Do rsr s).1 = ([], Some err)
    /\ last tr = Some ex.
Proof.
  intros Hw Hin Hfail.
  destruct (SearchResidential_Run Do rsr s) as (tr' & HR & Hw').
  rewrite Hw' in Hw. apply app_inv_head in Hw as <-.
  apply request_failed_error in Hfail as [err Hp].
  exists err. split; [exact Hp |].
  exact (Run_failure Do _ _ _ _ _ _ _ HR ex [] err Hin Hp).
Qed.

Lemma SearchResidential_aborts_on_failure_witness :
  (OnDemand.SearchResidential (flaky_upstream 2 200 (replicate 900 sample_listing))
     sample_criteria (mkEffects 0%nat [] [])).1
  = ([], Some "got non-200 code: 500, 500 Internal Server Error").
Proof.
  destruct (SearchResidential_aborts_on_failure
              (flaky_upstream 2 200 (replicate 900 sample_listing))
              sample_criteria (mkEffects 0%nat [] [])
              (wire (OnDemand.SearchResidential
                       (flaky_upstream 2 200 (replicate 900 sample_listing))
                       sample_criteria (mkEffects 0%nat [] [])).2)
              (mkExchange (set_PageNumber 2 (set_PageSize 200 sample_criteria))
                 (Response 500 "500 Internal Server Error"
                    (Malformed "upstream unavailable" "invalid character"))))
    as (err & Hp & Hres & _).
  - reflexivity.
  - apply (list_elem_of_lookup_2 _ 2%nat). vm_compute. reflexivity.
  - reflexivity.
  - vm_compute in Hp. injection Hp as <-. exact Hres.
Defined.

(** ** The sequence of requests *)

(** The requests of one call, by position. *)
Lemma SearchResidential_sent {World}
    (Do : ResidentialSearchRequest -> World -> HttpOutcome * World)
    (rsr : ResidentialSearchRequest) (s : Effects World) :
  exists tr,
    wire (OnDemand.SearchResidential Do rsr s).2 = wire s ++ tr
    /\ forall i ex, tr !! i = Some ex ->
          sent ex = set_PageNumber (Z.of_nat i) (set_PageSize 200 rsr).
Proof.
  destruct (SearchResidential_Run Do rsr s) as (tr & HR & Hw).
  exists tr. split; [exact Hw |]. intros i ex Hi.
  rewrite (Run_sent_capped Do _ _ _ _ _ _ HR ltac:(simpl; lia) i ex Hi).
  done.
Qed.


Example caller_paging_fields_are_overridden :
  map (fun ex => (PageSize (sent ex), PageNumber (sent ex)))
    (wire (OnDemand.SearchResidential (paged_upstream 200 (replicate 450 sample_listing))
             sample_criteria quiet).2)
  = [(200, 0); (200, 1); (200, 2); (200, 3)]
  /\ (PageSize sample_criteria, PageNumber sample_criteria) = (50, 7).
Proof. vm_compute. done. Qed.

(** ** Termination *)

(** C10: for every transport, the guarded loop comes to an end: it unrolls
    into a finite run of at most 1000 page requests, of which at most 1000
    carry a non-empty page; an iteration either ends the call (with the error
    of its request, or on an empty page) or goes round again with strictly
    more records, and the guard lets no iteration start at 1000 records or
    more. *)
Theorem SearchResidential_terminates {World}
    (Do : ResidentialSearchRequest -> World -> HttpOutcome * World)
    (rsr : ResidentialSearchRequest) (s : Effects World) :
  (exists tr,
     Run Do (Some 1000) (set_PageNumber 0 (set_PageSize 200 rsr)) [] (world s) tr
       (OnDemand.SearchResidential Do rsr s).1
       (world (OnDemand.SearchResidential Do rsr s).2)
     /\ wire (OnDemand.SearchResidential Do rsr s).2 = wire s ++ tr
     /\ (length tr <= 1000)%nat
     /\ (length (filter (fun ex => carries_page ex = true) tr) <= 1000)%nat)
  /\ (forall rsr' listings s',
        1000 <= len listings ->
        OnDemand.SearchResidential_loop Do rsr' listings s' = ((listings, None), s'))
  /\ (forall rsr' listings s',
        len listings < 1000 ->
        let '((listingsPage, err), s1) := SearchResidentialPage Do true rsr' s' in
        OnDemand.SearchResidential_loop Do rsr' listings s'
        = match err with
          | Some err => (([], Some err), s1)
          | None =>
              match listingsPage with
              | [] => ((listings, None), s1)
              | _ => OnDemand.SearchResidential_loop Do (next_page rsr')
                       (listings ++ listingsPage) s1
              end
          end
        /\ (listingsPage <> [] ->
            len listings + 1 <= len (listings ++ listingsPage)
            /\ (OnDemand.room (listings ++ listingsPage) < OnDemand.room listings)%nat)).
Proof.
  split; [| split].
  - destruct (SearchResidential_Run Do rsr s) as (tr & HR & Hw).
    exists tr. split; [exact HR |]. split; [exact Hw |].
    pose proof (Run_length Do _ _ _ _ _ _ HR) as Hlen.
    pose proof (Run_pages Do _ _ _ _ _ _ HR) as [Hpages _].
    change (OnDemand.room []) with 1000%nat in *. done.
  - intros. by apply SearchResidential_loop_exit.
  - intros rsr' listings s' Hlt.
    pose proof (SearchResidential_loop_step Do rsr' listings s' Hlt) as Hstep.
    destruct (SearchResidentialPage Do true rsr' s') as [[listingsPage err] s1].
    split; [exact Hstep |].
    intros Hne. split; [| by apply room_decreases].
    unfold len. rewrite length_app. destruct listingsPage; [done | simpl; lia].
Qed.

(** ** The criteria of an on-demand request *)

Lemma domainHandler_wire {World}
    (Do : ResidentialSearchRequest -> World -> HttpOutcome * World)
    (q : OnDemand.Values) (s : Effects World) :
  wire (OnDemand.domainHandler Do q s).2
  = wire (OnDemand.SearchResidential Do (OnDemand.handler_criteria q) s).2.
Proof.
  unfold OnDemand.domainHandler.
  destruct (OnDemand.SearchResidential Do _ s) as [[listings [err|]] s1]; done.
Qed.

(** C8: [domainHandler] searches with criteria it derives from the request,
    and every page request it makes, of which there is at least one, carries
    them: the listing category "Rent", zero minimum thresholds and exactly
    one location filter, whose state, suburb and postcode are the request's
    [state], [suburb] and [postCode] parameters and whose other fields are
    empty. For a request with only [suburb=Pyrmont] the one filter has suburb
    "Pyrmont" and nothing else. *)
Theorem domainHandler_criteria {World}
    (Do : ResidentialSearchRequest -> World -> HttpOutcome * World)
    (q : OnDemand.Values) (s : Effects World) :
  (exists ex tr,
     wire (OnDemand.domainHandler Do q s).2 = wire s ++ ex :: tr
     /\ forall ex', ex' ∈ ex :: tr ->
          ListingType (sent ex') = "Rent"
          /\ MinBedrooms (sent ex') = 0
          /\ MinBathrooms (sent ex') = 0
          /\ MinCarspaces (sent ex') = 0
          /\ exists loc,
               Locations (sent ex') = [loc]
               /\ State loc = OnDemand.Get q "state"
               /\ Suburb loc = OnDemand.Get q "suburb"
               /\ PostCode loc = OnDemand.Get q "postCode"
               /\ Area loc = ""
               /\ Region loc = ""
               /\ IncludeSurroundingSuburbs loc = false)
  /\ (exists ex tr,
        wire (OnDemand.domainHandler Do {[ "suburb" := ["Pyrmont"] ]} s).2
        = wire s ++ ex :: tr
        /\ forall ex', ex' ∈ ex :: tr ->
             Locations (sent ex') = [mkLocationFilter "" "" "" "Pyrmont" "" false])
  /\ (forall (key v : string) (vs : list string),
        q !! key = Some (v :: vs) -> OnDemand.Get q key = v)
  /\ (forall key : string,
        q !! key = None \/ q !! key = Some [] -> OnDemand.Get q key = "").
Proof.
  assert (forall q0 : OnDemand.Values,
            exists ex tr,
              wire (OnDemand.domainHandler Do q0 s).2 = wire s ++ ex :: tr
              /\ forall ex', ex' ∈ ex :: tr ->
                   exists i : nat,
                     sent ex' = set_PageNumber (Z.of_nat i)
                                  (set_PageSize 200 (OnDemand.handler_criteria q0)))
    as Hsends.
  { intros q0. rewrite domainHandler_wire.
    destruct (SearchResidential_Run Do (OnDemand.handler_criteria q0) s) as (tr & HR & Hw).
    pose proof (Run_nonempty Do _ _ _ _ _ _ HR ltac:(done)) as Hne.
    destruct tr as [|ex tr]; [done |]. exists ex, tr. split; [exact Hw |].
    intros ex' Hin. apply list_elem_of_lookup in Hin as [i Hi]. exists i.
    by rewrite (Run_sent_capped Do _ _ _ _ _ _ HR ltac:(simpl; lia) i ex' Hi). }
  split; [| split; [| split]].
  - destruct (Hsends q) as (ex & tr & Hw & Hall). exists ex, tr. split; [exact Hw |].
    intros ex' Hin. destruct (Hall ex' Hin) as [i ->]. simpl.
    do 4 (split; [done |]). eexists. split; [reflexivity |]. done.
  - destruct (Hsends {[ "suburb" := ["Pyrmont"] ]}) as (ex & tr & Hw & Hall).
    exists ex, tr. split; [exact Hw |].
    intros ex' Hin. destruct (Hall ex' Hin) as [i ->]. reflexivity.
  - intros key v vs Hq. unfold OnDemand.Get. by rewrite Hq.
  - intros key [Hq | Hq]; unfold OnDemand.Get; by rewrite Hq.
Qed.

(** ** Label formatting *)

Lemma round_half_even_nearest (num den : N) :
  (0 < den)%N ->
  let t := round_half_even num den in
  Z.abs (2 * Z.of_N num - 2 * Z.of_N t * Z.of_N den) <= Z.of_N den
  /\ (Z.abs (2 * Z.of_N num - 2 * Z.of_N t * Z.of_N den) = Z.of_N den ->
      Z.even (Z.of_N t) = true).
Proof.
  intros Hden. unfold round_half_even.
  pose proof (N.div_mod num den ltac:(lia)) as Hdm.
  pose proof (N.mod_lt num den ltac:(lia)) as Hr.
  set (q := (num / den)%N) in *. set (r := (num mod den)%N) in *.
  assert (Hz : Z.of_N num = Z.of_N den * Z.of_N q + Z.of_N r) by lia.
  destruct (N.compare_spec (2 * r) den) as [Heq | Hlt | Hgt]; simpl.
  - destruct (N.even q) eqn:Hev.
    + split; [lia |]. intros _. rewrite <- Hev. clear. destruct q as [|[]]; done.
    + split; [lia |]. intros _.
      rewrite N2Z.inj_add. change (Z.of_N 1) with 1.
      rewrite Z.even_add. replace (Z.even (Z.of_N q)) with false; [done |].
      rewrite <- Hev. clear. destruct q as [|[]]; done.
  - split; lia.
  - split; lia.
Qed.

Lemma tenths_nearest mant expo : nearest_tenths mant expo (tenths mant expo).
Proof.
  unfold nearest_tenths, tenths. destruct (Z.leb_spec 0 expo) as [Hge | Hlt].
  - rewrite Z.max_r, Z.max_l by lia. change (2 ^ 0) with 1.
    rewrite !N2Z.inj_mul, N2Z.inj_pow, Z2N.id by lia. simpl Z.of_N.
    split; [lia |]. intros Habs. lia.
  - rewrite Z.max_l, Z.max_r by lia. change (2 ^ 0) with 1.
    pose proof (round_half_even_nearest (10 * mant) (2 ^ Z.to_N (- expo))) as H.
    rewrite N2Z.inj_mul, N2Z.inj_pow, Z2N.id in H by lia. simpl Z.of_N in H.
    rewrite Z.mul_1_r. apply H.
    apply N.neq_0_lt_0, N.pow_nonzero. done.
Qed.

Lemma pretty_N_char_digit x : is_digit (pretty_N_char x) = true.
Proof. unfold pretty_N_char. by repeat case_match. Qed.

Lemma string_app_nil_l (s : string) : "" +:+ s = s.
Proof. reflexivity. Qed.

Lemma string_app_cons c (a b : string) : String c a +:+ b = String c (a +:+ b).
Proof. reflexivity. Qed.

Lemma string_app_nil_r (s : string) : s +:+ "" = s.
Proof. induction s as [|c s IH]; [done |]. by rewrite string_app_cons, IH. Qed.

Lemma string_app_assoc (a b c : string) : (a +:+ b) +:+ c = a +:+ (b +:+ c).
Proof.
  induction a as [|x a IH]; [done |]. by rewrite !string_app_cons, IH.
Qed.

Lemma all_digits_app p1 p2 :
  all_digits p1 = true -> all_digits p2 = true -> all_digits (p1 +:+ p2) = true.
Proof.
  induction p1 as [|c p1 IH]; [done |]. rewrite string_app_cons. simpl.
  intros [Hc Hp]%andb_prop Hp2. rewrite Hc. simpl. by apply IH.
Qed.

Lemma pretty_N_go_digits x s :
  exists p, pretty_N_go x s = p +:+ s
            /\ all_digits p = true
            /\ ((0 < x)%N -> p <> "").
Proof.
  revert s. induction (N.lt_wf_0 x) as [x _ IH]. intros s.
  destruct (decide (x = 0%N)) as [-> | Hx].
  - exists "". rewrite pretty_N_go_0. split; [done |]. split; [done | lia].
  - rewrite pretty_N_go_step by lia.
    destruct (IH (x `div` 10)%N ltac:(apply N.div_lt; lia)
                (String (pretty_N_char (x `mod` 10)) s)) as (p & -> & Hp & _).
    exists (p +:+ String (pretty_N_char (x `mod` 10)) "").
    split; [by rewrite string_app_assoc |]. split.
    + apply all_digits_app; [done |]. simpl. by rewrite pretty_N_char_digit.
    + intros _. by destruct p.
Qed.

Lemma pretty_N_digits (x : N) : all_digits (pretty x) = true /\ pretty x <> "".
Proof.
  unfold pretty, pretty_N. case_decide as Hx; [done |].
  destruct (pretty_N_go_digits x "") as (p & -> & Hp & Hne).
  rewrite string_app_nil_r.
  split; [done | apply Hne; lia].
Qed.

Lemma pretty_N_one_digit (d : N) :
  (d < 10)%N -> pretty d = String (pretty_N_char d) "".
Proof.
  intros Hd.
  assert (d = 0 \/ d = 1 \/ d = 2 \/ d = 3 \/ d = 4 \/ d = 5 \/ d = 6 \/ d = 7
          \/ d = 8 \/ d = 9)%N as Hcases by lia.
  repeat (destruct Hcases as [-> | Hcases]; [reflexivity |]). by subst.
Qed.

Lemma fixed1_digits_point_digit seen p d :
  all_digits p = true -> is_digit d = true -> (seen = true \/ p <> "") ->
  fixed1 seen (p +:+ "." +:+ String d "") = true.
Proof.
  revert seen. induction p as [|c p IH]; intros seen Hp Hd Hseen.
  - destruct Hseen as [-> | ?]; [| done].
    rewrite string_app_nil_l, string_app_cons, string_app_nil_l. simpl.
    by rewrite Hd.
  - simpl in Hp. apply andb_prop in Hp as [Hc Hp].
    specialize (IH true Hp Hd (or_introl eq_refl)).
    rewrite string_app_cons.
    destruct p as [|c' p].
    + rewrite string_app_nil_l, string_app_cons, string_app_nil_l in *.
      simpl in *. by rewrite Hc.
    + rewrite string_app_cons in *. destruct p as [|c'' p].
      * rewrite string_app_nil_l, string_app_cons, string_app_nil_l in *.
        simpl in *. by rewrite Hc.
      * rewrite string_app_cons in *. simpl in *. by rewrite Hc.
Qed.

Lemma digit_not_dash c : is_digit c = true -> Ascii.eqb c "-" = false.
Proof. destruct (Ascii.eqb_spec c "-") as [-> | ?]; [done | done]. Qed.

Lemma one_decimal_place_intro (sign : bool) p d :
  all_digits p = true -> p <> "" -> is_digit d = true ->
  has_one_decimal_place ((if sign then "-" else "") +:+ p +:+ "." +:+ String d "") = true.
Proof.
  intros Hp Hne Hd. destruct sign.
  - rewrite string_app_cons, string_app_nil_l. simpl.
    by apply fixed1_digits_point_digit; auto.
  - rewrite string_app_nil_l. destruct p as [|c p]; [done |].
    pose proof Hp as Hp'. simpl in Hp'. apply andb_prop in Hp' as [Hc _].
    rewrite string_app_cons.
    unfold has_one_decimal_place. rewrite (digit_not_dash c Hc).
    rewrite <- string_app_cons.
    by apply fixed1_digits_point_digit; auto.
Qed.

Lemma Sprintf_1f_one_decimal_place sign mant expo :
  has_one_decimal_place (Sprintf_1f (F32 sign mant expo)) = true.
Proof.
  unfold Sprintf_1f.
  destruct (pretty_N_digits (tenths mant expo / 10)) as [Hp Hne].
  rewrite (pretty_N_one_digit (tenths mant expo mod 10)) by (apply N.mod_lt; lia).
  apply one_decimal_place_intro; [done | done | apply pretty_N_char_digit].
Qed.

Lemma Sprintf_v_plain_integer n : is_plain_integer (Sprintf_v n) = true.
Proof.
  unfold Sprintf_v, pretty, pretty_Z. destruct n as [| x | x]; [done | |].
  - destruct (pretty_N_digits (N.pos x)) as [Hp Hne].
    change (pretty x) with (pretty (N.pos x)).
    destruct (pretty (N.pos x)) as [|c r]; [done |].
    pose proof Hp as Hp'. simpl in Hp'. apply andb_prop in Hp' as [Hc _].
    unfold is_plain_integer. by rewrite (digit_not_dash c Hc).
  - destruct (pretty_N_digits (N.pos x)) as [Hp Hne].
    change (pretty x) with (pretty (N.pos x)).
    rewrite string_app_cons, string_app_nil_l. simpl.
    rewrite Hp. by destruct (pretty (N.pos x)).
Qed.

Lemma nearest_tenths_unique mant expo t t' :
  nearest_tenths mant expo t -> nearest_tenths mant expo t' -> t = t'.
Proof.
  unfold nearest_tenths. intros [H1 E1] [H2 E2].
  assert (0 < 2 ^ Z.max 0 (- expo)) as Hden by (apply Z.pow_pos_nonneg; lia).
  set (den := 2 ^ Z.max 0 (- expo)) in *.
  set (num := 10 * Z.of_N mant * 2 ^ Z.max 0 expo) in *.
  assert (Z.abs (Z.of_N t - Z.of_N t') <= 1) as Hclose by nia.
  destruct (decide (t = t')) as [| Hne]; [done | exfalso].
  assert (Z.abs (2 * num - 2 * Z.of_N t * den) = den
          /\ Z.abs (2 * num - 2 * Z.of_N t' * den) = den) as [A1 A2] by nia.
  specialize (E1 A1). specialize (E2 A2).
  assert (Z.of_N t' = Z.of_N t + 1 \/ Z.of_N t = Z.of_N t' + 1) as [E | E] by lia.
  - rewrite E, Z.even_add, E1 in E2. done.
  - rewrite E, Z.even_add, E2 in E1. done.
Qed.

Lemma tenths_exact mant expo (t : N) :
  10 * Z.of_N mant * 2 ^ Z.max 0 expo = Z.of_N t * 2 ^ Z.max 0 (- expo) ->
  tenths mant expo = t.
Proof.
  intros E. apply (nearest_tenths_unique mant expo); [apply tenths_nearest |].
  assert (0 < 2 ^ Z.max 0 (- expo)) as Hden by (apply Z.pow_pos_nonneg; lia).
  unfold nearest_tenths. rewrite E. split; [lia | lia].
Qed.

Lemma Sprintf_1f_one_decimal_of x :
  is_finite x = true -> one_decimal_of x (Sprintf_1f x).
Proof.
  destruct x as [sign mant expo | |]; [intros _ | done | done].
  exists sign, mant, expo, (tenths mant expo).
  split; [done |]. split; [apply tenths_nearest |]. split; [done |].
  apply Sprintf_1f_one_decimal_place.
Qed.

(** C5: for every listing whose bedroom and bathroom counts are finite (as
    every count decoded from the API's JSON is), the bedroom and bathroom
    labels are the counts rounded to the nearest tenth and written with
    exactly one decimal place, and the car-space label is the count as a
    plain integer; bedrooms 3.0, bathrooms 2.5 and one car space give the
    labels "3.0", "2.5" and "1". *)
Theorem label_values_format (l : SearchResult) :
  is_finite (Bedrooms (Details (Listing l))) = true ->
  is_finite (Bathrooms (Details (Listing l))) = true ->
  (exists bedrooms bathrooms carspaces,
     label_values l
     = [PropertyType (Details (Listing l)); PD_Suburb (Details (Listing l));
        Postcode (Details (Listing l)); bedrooms; bathrooms; carspaces]
     /\ one_decimal_of (Bedrooms (Details (Listing l))) bedrooms
     /\ one_decimal_of (Bathrooms (Details (Listing l))) bathrooms
     /\ carspaces = pretty (CarSpaces (Details (Listing l)))
     /\ is_plain_integer carspaces = true)
  /\ (float_is (Bedrooms (Details (Listing l))) 3 1 ->
      float_is (Bathrooms (Details (Listing l))) 5 2 ->
      CarSpaces (Details (Listing l)) = 1 ->
      drop 3 (label_values l) = ["3.0"; "2.5"; "1"]).
Proof.
  intros Hbed Hbath. split.
  - eexists _, _, _. split; [reflexivity |].
    split; [by apply Sprintf_1f_one_decimal_of |].
    split; [by apply Sprintf_1f_one_decimal_of |].
    split; [done | apply Sprintf_v_plain_integer].
  - unfold label_values. simpl.
    destruct (Bedrooms _) as [sb mb eb | |]; [| done | done].
    destruct (Bathrooms _) as [sa ma ea | |]; [| done | done].
    intros [-> Eb] [-> Ea] ->. unfold Sprintf_1f.
    rewrite (tenths_exact mb eb 30), (tenths_exact ma ea 25); [done | |].
    + assert (0 < 2 ^ Z.max 0 (- ea)) by (apply Z.pow_pos_nonneg; lia).
      change (Z.of_N 25) with 25. nia.
    + change (Z.of_N 30) with 30. lia.
Qed.

Lemma label_values_format_witness :
  drop 3 (label_values
            (mkSearchResult (mkPropertyListing
               (mkPropertyDetails "NSW" "House" (F32 false 10485760 (-22))
                  (F32 false 12582912 (-22)) 1 "Glebe" "2037"))))
  = ["3.0"; "2.5"; "1"].
Proof.
  apply (label_values_format
           (mkSearchResult (mkPropertyListing
              (mkPropertyDetails "NSW" "House" (F32 false 10485760 (-22))
                 (F32 false 12582912 (-22)) 1 "Glebe" "2037")))).
  - reflexivity.
  - reflexivity.
  - split; reflexivity.
  - split; reflexivity.
  - reflexivity.
Defined.

(** Rounding is to the nearest tenth, ties to the even one, and the sign of a
    negative zero is kept. *)
Example Sprintf_1f_examples :
  Sprintf_1f (F32 false 1 (-2)) = "0.2"       (* 0.25 *)
  /\ Sprintf_1f (F32 false 3 (-2)) = "0.8"    (* 0.75 *)
  /\ Sprintf_1f (F32 false 13421773 (-27)) = "0.1" (* float32(0.1) *)
  /\ Sprintf_1f (F32 true 0 0) = "-0.0"
  /\ Sprintf_1f (F32 false 12 0) = "12.0"
  /\ Sprintf_v (-3) = "-3".
Proof. vm_compute. done. Qed.

(** ** The batch exporter *)

Section BatchFacts.
Context {World : Type}.
Variable Do : ResidentialSearchRequest -> World -> HttpOutcome * World.

(** More fuel does not change a call that has returned. *)
Lemma Batch_loop_fuel_mono fuel fuel' rsr listings (s : Effects World) r :
  Batch.SearchResidential_loop Do fuel rsr listings s = Some r ->
  (fuel <= fuel')%nat ->
  Batch.SearchResidential_loop Do fuel' rsr listings s = Some r.
Proof.
  revert fuel' rsr listings s.
  induction fuel as [|fuel IH]; intros fuel' rsr listings s Hr Hle; [done |].
  destruct fuel' as [|fuel']; [lia |]. simpl in *.
  destruct (SearchResidentialPage Do false rsr s) as [[page [err|]] s1]; [done |].
  destruct page as [|l page]; [done |]. apply IH; [done | lia].
Qed.

Lemma Batch_SearchResidential_fuel_mono fuel fuel' rsr (s : Effects World) r :
  Batch.SearchResidential Do fuel rsr s = Some r ->
  (fuel <= fuel')%nat ->
  Batch.SearchResidential Do fuel' rsr s = Some r.
Proof. apply Batch_loop_fuel_mono. Qed.


Lemma Collect_loop_app (fuel : nat) (before after : list Batch.SearchFile)
    (table : GaugeVec) (s : Effects World) :
  Batch.Collect_loop Do fuel (before ++ after) table s
  = match Batch.Collect_loop Do fuel before table s with
    | Some (table1, s1) => Batch.Collect_loop Do fuel after table1 s1
    | None => None
    end.
Proof.
  revert table s. induction before as [|m before IH]; intros table s; [done |].
  simpl. destruct m as [e | rsr]; [apply IH |].
  destruct (Batch.SearchResidential Do fuel rsr s) as [[[listings [err|]] s1]|];
    [apply IH | apply IH | done].
Qed.

(** Counts never go down during a scrape. *)
Lemma aggregate_grows (listings : list SearchResult) (table : GaugeVec) (lvs : list string) :
  default 0 (table !! lvs) <= default 0 (aggregate listings table !! lvs).
Proof.
  rewrite lookup_aggregate. unfold bucket, len. lia.
Qed.

Lemma SearchResidentialPage_logs detailed rsr (s : Effects World) :
  logs s `prefix_of` logs (SearchResidentialPage Do detailed rsr s).2.
Proof.
  unfold SearchResidentialPage, roundtrip. simpl.
  destruct (Do rsr (world s)) as [out w]. simpl.
  destruct out as [err | code status body]; simpl; [by apply prefix_app_r |].
  destruct (negb (code =? 200)); destruct body; simpl;
    try rewrite <- app_assoc; by apply prefix_app_r.
Qed.

Lemma Batch_loop_logs fuel rsr listings (s : Effects World) r s' :
  Batch.SearchResidential_loop Do fuel rsr listings s = Some (r, s') ->
  logs s `prefix_of` logs s'.
Proof.
  revert rsr listings s.
  induction fuel as [|fuel IH]; intros rsr listings s Hr; [done |].
  simpl in Hr. pose proof (SearchResidentialPage_logs false rsr s) as Hp.
  destruct (SearchResidentialPage Do false rsr s) as [[page [err|]] s1]; simpl in Hp.
  - by injection Hr as _ <-.
  - destruct page as [|l page]; [by injection Hr as _ <- |].
    etrans; [exact Hp |]. by eapply IH.
Qed.

Lemma Collect_loop_grows (fuel : nat) (matches : list Batch.SearchFile)
    (table table' : GaugeVec) (s s' : Effects World) :
  Batch.Collect_loop Do fuel matches table s = Some (table', s') ->
  (forall lvs : list string, default 0 (table !! lvs) <= default 0 (table' !! lvs))
  /\ logs s `prefix_of` logs s'.
Proof.
  revert table s. induction matches as [|m matches IH]; intros table s Hr.
  - injection Hr as <- <-. done.
  - simpl in Hr. destruct m as [e | rsr].
    + destruct (IH _ _ Hr) as [Hc Hl]. split; [done |].
      etrans; [| exact Hl]. by apply prefix_app_r.
    + destruct (Batch.SearchResidential Do fuel rsr s) as [[[listings [err|]] s1]|] eqn:E;
        [| | done]; apply Batch_loop_logs in E; destruct (IH _ _ Hr) as [Hc Hl].
      * split; [done |]. etrans; [exact E |]. etrans; [| exact Hl].
        by apply prefix_app_r.
      * split; [| by etrans].
        intros lvs. etrans; [apply (aggregate_grows listings) | apply Hc].
Qed.

(** The table of a scrape is the aggregate of what its successful searches
    fetched, and of nothing else. *)
Lemma Collect_loop_fetched (fuel : nat) (matches : list Batch.SearchFile)
    (table table' : GaugeVec) (s s' : Effects World) :
  Batch.Collect_loop Do fuel matches table s = Some (table', s') ->
  exists listings,
    fetched_in_scrape Do fuel matches s = Some listings
    /\ table' = aggregate listings table.
Proof.
  revert table s. induction matches as [|m matches IH]; intros table s Hr.
  - injection Hr as <- <-. by exists [].
  - simpl in *. destruct m as [e | rsr]; [by apply IH |].
    destruct (Batch.SearchResidential Do fuel rsr s) as [[[listings [err|]] s1]|];
      [by apply IH | | done].
    destruct (IH _ _ Hr) as (rest & -> & ->). exists (listings ++ rest).
    split; [done |]. unfold aggregate. by rewrite foldl_app.
Qed.

End BatchFacts.




(** The scenario of the specification: the second of three criteria sets gets
    a 500 on its first page; the scrape ends with the six listings of the two
    other sets and one line on the log for the failed one. *)
Example scrape_with_one_failing_set :
  exists table s,
    Batch.Collect market_upstream 3
      ([Batch.Decodes sample_criteria; Batch.Decodes sale_criteria;
        Batch.Decodes sample_criteria], None) quiet = Some (table, s)
    /\ table = aggregate (replicate 6 sample_listing) ∅
    /\ sum_counts table = 6
    /\ filter (fun l => (if l is LogSearchError _ _ then true else false) = true) (logs s)
       = [LogSearchError sale_criteria "got non-200 code: 500, 500 Internal Server Error"].
Proof.
  eexists _, _. repeat split; vm_compute; reflexivity.
Qed.

(** ** The caller's criteria *)

Section ByValueFacts.
Context {World : Type}.
Variable Do : ResidentialSearchRequest -> World -> HttpOutcome * World.

(** The loop assigns to the parameter cell only. *)
Lemma loop_frame p listings (m : ByValue.Machine) :
  delete p (ByValue.cells (ByValue.loop Do p listings m).2)
  = delete p (ByValue.cells m).
Proof.
  funelim (ByValue.loop Do p listings m); simpl; try reflexivity.
  match goal with IH : delete _ _ = _ |- _ => rewrite IH end.
  simpl. apply delete_insert_eq.
Qed.

(** On the cell, the loop is the loop of [OnDemand.SearchResidential] on the
    value the cell holds. *)
Lemma loop_refines p listings (m : ByValue.Machine) :
  (ByValue.loop Do p listings m).1
  = (OnDemand.SearchResidential_loop Do (ByValue.read p m) listings (ByValue.effects m)).1
  /\ ByValue.effects (ByValue.loop Do p listings m).2
     = (OnDemand.SearchResidential_loop Do (ByValue.read p m) listings
          (ByValue.effects m)).2.
Proof.
  funelim (ByValue.loop Do p listings m).
  - rewrite SearchResidential_loop_exit; [done |].
    match goal with H : (_ <? _) = false |- _ => pose proof (proj1 (Z.ltb_ge _ _) H) end.
    lia.
  - rewrite SearchResidential_loop_step
      by (match goal with H : (_ <? _) = true |- _ => apply (proj1 (Z.ltb_lt _ _) H) end).
    match goal with E : SearchResidentialPage _ _ _ _ = _ |- _ => rewrite E end. done.
  - rewrite SearchResidential_loop_step
      by (match goal with H : (_ <? _) = true |- _ => apply (proj1 (Z.ltb_lt _ _) H) end).
    match goal with E : SearchResidentialPage _ _ _ _ = _ |- _ => rewrite E end. done.
  - rewrite (SearchResidential_loop_step Do (ByValue.read p m))
      by (match goal with H : (_ <? _) = true |- _ => apply (proj1 (Z.ltb_lt _ _) H) end).
    match goal with E : SearchResidentialPage _ _ _ _ = _ |- _ => rewrite E end.
    match goal with IH : _ /\ _ |- _ => destruct IH as [IH1 IH2] end.
    rewrite IH1, IH2. unfold ByValue.read, ByValue.assign, ByValue.with_effects.
    simpl. rewrite lookup_insert_eq. done.
Qed.

(** C9: a call of [SearchResidential] with the criteria held in the caller's
    variable leaves that variable, like every other variable, as it was,
    whatever the call returns; the call itself behaves as [SearchResidential]
    on the value copied, overwriting [pageSize] and [pageNumber] in its own
    copy only. *)
Theorem SearchResidential_leaves_caller_criteria
    (arg : nat) (m : ByValue.Machine) (v : ResidentialSearchRequest) :
  ByValue.cells m !! arg = Some v ->
  ByValue.cells (ByValue.call_SearchResidential Do arg m).2 !! arg = Some v
  /\ ByValue.cells (ByValue.call_SearchResidential Do arg m).2 = ByValue.cells m
  /\ (ByValue.call_SearchResidential Do arg m).1
     = (OnDemand.SearchResidential Do v (ByValue.effects m)).1
  /\ ByValue.effects (ByValue.call_SearchResidential Do arg m).2
     = (OnDemand.SearchResidential Do v (ByValue.effects m)).2.
Proof.
  intros Harg. unfold ByValue.call_SearchResidential.
  set (p := fresh (dom (ByValue.cells m))).
  assert (ByValue.cells m !! p = None) as Hp.
  { apply not_elem_of_dom. apply is_fresh. }
  set (m2 := ByValue.assign p (set_PageNumber 0)
               (ByValue.assign p (set_PageSize 200)
                  (ByValue.mkMachine (<[p := ByValue.read arg m]> (ByValue.cells m))
                     (ByValue.effects m)))).
  assert (ByValue.read p m2 = set_PageNumber 0 (set_PageSize 200 v)) as Hread.
  { unfold m2, ByValue.assign, ByValue.read. simpl.
    rewrite !lookup_insert_eq. simpl. by rewrite Harg. }
  assert (delete p (ByValue.cells m2) = ByValue.cells m) as Hcells.
  { unfold m2, ByValue.assign. simpl.
    rewrite !delete_insert_eq. by apply delete_id. }
  pose proof (loop_frame p [] m2) as Hframe.
  pose proof (loop_refines p [] m2) as [Hres Heff].
  rewrite Hread in Hres, Heff.
  destruct (ByValue.loop Do p [] m2) as [res m3]. simpl in *.
  rewrite Hframe, Hcells. done.
Qed.
End ByValueFacts.

Lemma SearchResidential_leaves_caller_criteria_witness :
  ByValue.cells
    (ByValue.call_SearchResidential (flaky_upstream 2 200 (replicate 900 sample_listing))
       7%nat (ByValue.mkMachine {[ 7%nat := sample_criteria ]} (mkEffects 0%nat [] []))).2
    !! 7%nat = Some sample_criteria.
Proof.
  apply (SearchResidential_leaves_caller_criteria
           (flaky_upstream 2 200 (replicate 900 sample_listing)) 7%nat
           (ByValue.mkMachine {[ 7%nat := sample_criteria ]} (mkEffects 0%nat [] []))
           sample_criteria).
  reflexivity.
Defined.

(** The callee's copy is overwritten while the caller's variable keeps the
    page size 50 and the page number 7 it was given. *)
Example callee_copy_is_overwritten :
  let m := ByValue.mkMachine {[ 7%nat := sample_criteria ]} quiet in
  let r := ByValue.call_SearchResidential
             (paged_upstream 200 (replicate 450 sample_listing)) 7%nat m in
  map (fun ex => (PageSize (sent ex), PageNumber (sent ex))) (wire (ByValue.effects r.2))
  = [(200, 0); (200, 1); (200, 2); (200, 3)]
  /\ (PageSize <$> ByValue.cells r.2 !! 7%nat, PageNumber <$> ByValue.cells r.2 !! 7%nat)
     = (Some 50, Some 7).
Proof. vm_compute. done. Qed.


(** ** The two revisions side by side *)

(** Below the cap the unguarded loop of the batch exporter makes the same
    requests: three records take two requests there too. *)
Example batch_three_records_two_requests :
  exists res s,
    Batch.SearchResidential (paged_upstream 200 (replicate 3 sample_listing)) 5
      sample_criteria quiet = Some (res, s)
    /\ len res.1 = 3 /\ res.2 = None /\ page_requests quiet s = 2.
Proof. eexists _, _. split; [vm_compute; reflexivity |]. vm_compute. done. Qed.

(** Above the cap it does not stop: its sixth request is refused by the
    search endpoint and the whole search fails, which is what the guard of
    the on-demand exporter prevents. *)
Example batch_pages_beyond_the_cap :
  exists s,
    Batch.SearchResidential (domain_api (replicate 1001 sample_listing)) 10
      sample_criteria quiet
    = Some (([], Some "got non-200 code: 400, 400 Bad Request"), s)
    /\ map (fun ex => PageNumber (sent ex)) (wire s) = [0; 1; 2; 3; 4; 5].
Proof. eexists. split; [vm_compute; reflexivity |]. vm_compute. done. Qed.

(** The guard is checked before a request and nothing is cut off after it:
    were the upstream to ignore the requested page size and serve pages of
    300 records, the call would return the 1200 records of four pages. *)
Example pages_of_300_are_not_truncated :
  len (OnDemand.SearchResidential (paged_upstream 300 (replicate 1500 sample_listing))
         sample_criteria quiet).1.1 = 1200.
Proof. vm_compute. reflexivity. Qed.

(** The bound of 1000 page requests is reached when every page holds a single
    record. *)
Example thousand_single_record_pages :
  page_requests quiet
    (OnDemand.SearchResidential (paged_upstream 1 (replicate 1000 sample_listing))
       sample_criteria quiet).2 = 1000.
Proof. vm_compute. reflexivity. Qed.

(** A count that is not finite has no decimal text; the JSON decoder rejects
    the numbers that would decode to one. *)
Example Sprintf_1f_not_finite :
  Sprintf_1f F32NaN = "NaN" /\ Sprintf_1f (F32Inf false) = "+Inf"
  /\ has_one_decimal_place (Sprintf_1f F32NaN) = false.
Proof. vm_compute. done. Qed.

(** [WithLabelValues] is given as many values as the vector has labels. *)
Lemma label_values_arity (l : SearchResult) :
  length (label_values l) = length label_names.
Proof. reflexivity. Qed.

(** ** The table and what was fetched *)

(** An on-demand request that fetches its listings answers with a table
    whose counts sum to their number. *)
Lemma domainHandler_metrics {World}
    (Do : ResidentialSearchRequest -> World -> HttpOutcome * World)
    (q : OnDemand.Values) (s s1 : Effects World) (listings : list SearchResult) :
  OnDemand.SearchResidential Do (OnDemand.handler_criteria q) s = ((listings, None), s1) ->
  OnDemand.domainHandler Do q s = (OnDemand.Metrics 200 (aggregate listings ∅), s1)
  /\ sum_counts (aggregate listings ∅) = len listings.
Proof.
  intros Hfetch. unfold OnDemand.domainHandler. rewrite Hfetch.
  split; [done |]. rewrite sum_counts_aggregate, sum_counts_empty. lia.
Qed.

(** X13: a scrape sends the table of the listings its successful searches
    fetched, counted from an empty table, and the counts of the table sum to
    their number. *)
Lemma Collect_counts_fetched {World}
    (Do : ResidentialSearchRequest -> World -> HttpOutcome * World)
    (fuel : nat) (matches : list Batch.SearchFile)
    (table : GaugeVec) (s s' : Effects World) :
  Batch.Collect Do fuel (matches, None) s = Some (table, s') ->
  exists listings,
    fetched_in_scrape Do fuel matches s = Some listings
    /\ table = aggregate listings ∅
    /\ sum_counts table = len listings.
Proof.
  intros Hscrape. unfold Batch.Collect in Hscrape.
  destruct (Collect_loop_fetched Do _ _ _ _ _ _ Hscrape) as (listings & Hf & ->).
  exists listings. split; [done |]. split; [done |].
  rewrite sum_counts_aggregate, sum_counts_empty. lia.
Qed.

Lemma Collect_counts_fetched_witness :
  exists listings,
    fetched_in_scrape market_upstream 3
      [Batch.Decodes sample_criteria; Batch.Decodes sale_criteria] quiet = Some listings
    /\ sum_counts (aggregate listings ∅) = len listings.
Proof.
  pose (r := default (∅, quiet)
               (Batch.Collect market_upstream 3
                  ([Batch.Decodes sample_criteria; Batch.Decodes sale_criteria], None)
                  quiet)).
  destruct (Collect_counts_fetched market_upstream 3
              [Batch.Decodes sample_criteria; Batch.Decodes sale_criteria]
              r.1 quiet r.2) as (listings & Hf & Ht & Hs).
  - vm_compute. reflexivity.
  - exists listings. split; [exact Hf |]. rewrite <- Ht. exact Hs.
Defined.

(** ** The unguarded loop, returned or not *)

Section Upto.
Context {World : Type}.
Variable Do : ResidentialSearchRequest -> World -> HttpOutcome * World.

(** A call returns within [fuel] page requests exactly when the loop watched
    for as long has a result, and then with that result and state. *)
Lemma SearchResidential_loop_upto_returns fuel rsr listings (s : Effects World) :
  Batch.SearchResidential_loop Do fuel rsr listings s
  = match Batch.SearchResidential_loop_upto Do fuel rsr listings s with
    | (Some res, s') => Some (res, s')
    | (None, _) => None
    end.
Proof.
  revert rsr listings s.
  induction fuel as [|fuel IH]; intros rsr listings s; [done |]. simpl.
  destruct (SearchResidentialPage Do false rsr s) as [[page [err|]] s1]; [done |].
  destruct page; [done | apply IH].
Qed.

Lemma Collect_loop_upto_returns (fuel : nat) (matches : list Batch.SearchFile)
    (table : GaugeVec) (s : Effects World) :
  Batch.Collect_loop Do fuel matches table s
  = match Batch.Collect_loop_upto Do fuel matches table s with
    | (Some table', s') => Some (table', s')
    | (None, _) => None
    end.
Proof.
  revert table s. induction matches as [|m matches IH]; intros table s; [done |].
  simpl. destruct m as [e | rsr]; [apply IH |].
  unfold Batch.SearchResidential, Batch.SearchResidential_upto.
  rewrite SearchResidential_loop_upto_returns.
  destruct (Batch.SearchResidential_loop_upto Do fuel _ [] s) as [[[listings [err|]]|] s1];
    [apply IH | apply IH | done].
Qed.

(** The exchanges of the loop after at most [fuel] page requests. *)
Lemma SearchResidential_loop_upto_trace fuel rsr listings (s : Effects World) :
  exists tr,
    wire (Batch.SearchResidential_loop_upto Do fuel rsr listings s).2 = wire s ++ tr
    /\ (length tr <= fuel)%nat
    /\ ((Batch.SearchResidential_loop_upto Do fuel rsr listings s).1 = None ->
        length tr = fuel)
    /\ forall i ex, tr !! i = Some ex ->
         same_search (sent ex) rsr
         /\ PageSize (sent ex) = PageSize rsr
         /\ (0 <= PageNumber rsr -> PageNumber rsr + Z.of_nat fuel < 2 ^ 63 ->
             PageNumber (sent ex) = PageNumber rsr + Z.of_nat i)
         /\ ((S i < length tr)%nat -> carries_page ex = true)
         /\ (forall page err,
               page_result (received ex) = (page, Some err) ->
               S i = length tr
               /\ (Batch.SearchResidential_loop_upto Do fuel rsr listings s).1
                  = Some ([], Some err)).
Proof.
  revert rsr listings s.
  induction fuel as [|fuel IH]; intros rsr listings s.
  { exists []. simpl. split; [by rewrite app_nil_r |]. split; [done |].
    split; [done |]. by intros []. }
  simpl.
  destruct (SearchResidentialPage_spec Do false rsr s) as (s1 & Hp & _ & Ht).
  rewrite Hp. destruct (page_result (Do rsr (world s)).1) as [page [err|]] eqn:E.
  - exists [mkExchange rsr (Do rsr (world s)).1]. split; [exact Ht |].
    split; [simpl; lia |]. split; [done |]. intros [|i] ex Hi; [| by destruct i].
    injection Hi as <-. simpl. split; [done |]. split; [done |].
    split; [intros; lia |]. split; [lia |].
    intros page' err' Hpe. rewrite E in Hpe. by injection Hpe as _ ->.
  - destruct page as [|l page].
    + exists [mkExchange rsr (Do rsr (world s)).1]. split; [exact Ht |].
      split; [simpl; lia |]. split; [done |]. intros [|i] ex Hi; [| by destruct i].
      injection Hi as <-. simpl. split; [done |]. split; [done |].
      split; [intros; lia |]. split; [lia |].
      intros page' err' Hpe. rewrite E in Hpe. discriminate.
    + destruct (IH (set_PageNumber (wrap_int (PageNumber rsr + 1)) rsr)
                  (listings ++ l :: page) s1) as (tr & Hw & Hlen & Hgo & Hall).
      exists (mkExchange rsr (Do rsr (world s)).1 :: tr).
      split; [by rewrite Hw, Ht, <- app_assoc |].
      split; [simpl; lia |]. split; [intros Hn; simpl; by rewrite Hgo |].
      intros [|i] ex Hi.
      * injection Hi as <-. simpl. split; [done |]. split; [done |].
        split; [intros; lia |].
        split; [intros _; unfold carries_page; simpl; by rewrite E |].
        intros page' err' Hpe. rewrite E in Hpe. discriminate.
      * simpl in Hi. destruct (Hall i ex Hi) as (Hsame & Hps & Hpn & Hcar & Herr).
        split; [by destruct rsr |]. split; [by destruct rsr |].
        split; [| split].
        -- intros H0 Hroom.
           assert (PageNumber (set_PageNumber (wrap_int (PageNumber rsr + 1)) rsr)
                   = PageNumber rsr + 1) as Hnext.
           { destruct rsr. simpl in *. apply wrap_int_small. lia. }
           rewrite Hpn; rewrite Hnext; lia.
        -- intros Hlt. apply Hcar. simpl in Hlt. lia.
        -- intros page' err' Hpe. destruct (Herr page' err' Hpe) as [Hlast Hres].
           split; [simpl; lia | exact Hres].
Qed.

(** The exchanges of a scrape, as far as it has got. *)
Lemma Collect_loop_upto_wire (fuel : nat) (matches : list Batch.SearchFile)
    (table : GaugeVec) (s : Effects World) :
  exists tr,
    wire (Batch.Collect_loop_upto Do fuel matches table s).2 = wire s ++ tr
    /\ forall ex, ex ∈ tr ->
         PageSize (sent ex) = 200
         /\ exists rsr, Batch.Decodes rsr ∈ matches /\ same_search (sent ex) rsr.
Proof.
  revert table s. induction matches as [|m matches IH]; intros table s.
  - exists []. split; [by rewrite app_nil_r |]. intros ex Hin. by apply elem_of_nil in Hin.
  - simpl. destruct m as [e | rsr].
    + destruct (IH table (log_line (LogOpenError e) s)) as (tr & Hw & Htr).
      exists tr. split; [exact Hw |]. intros ex Hin.
      destruct (Htr ex Hin) as (Hps & r & Hr & Hsame).
      split; [exact Hps |]. exists r. split; [by right | exact Hsame].
    + unfold Batch.SearchResidential_upto.
      destruct (SearchResidential_loop_upto_trace fuel
                  (set_PageNumber 0 (set_PageSize 200 rsr)) [] s)
        as (tr1 & Hw1 & _ & _ & H1).
      assert (forall ex, ex ∈ tr1 ->
                PageSize (sent ex) = 200
                /\ exists r, Batch.Decodes r ∈ Batch.Decodes rsr :: matches
                             /\ same_search (sent ex) r) as Htr1.
      { intros ex Hin. apply list_elem_of_lookup_1 in Hin as [i Hi].
        destruct (H1 i ex Hi) as (Hsame & Hps & _).
        split; [exact Hps |]. exists rsr. split; [by left |]. by destruct rsr. }
      destruct (Batch.SearchResidential_loop_upto Do fuel _ [] s)
        as [[[listings err]|] s1]; simpl in Hw1.
      * assert (exists tr2,
                  wire (if err is Some e
                        then Batch.Collect_loop_upto Do fuel matches table
                               (log_line (LogSearchError rsr e) s1)
                        else Batch.Collect_loop_upto Do fuel matches
                               (aggregate listings table) s1).2 = wire s1 ++ tr2
                  /\ forall ex, ex ∈ tr2 ->
                       PageSize (sent ex) = 200
                       /\ exists r, Batch.Decodes r ∈ matches /\ same_search (sent ex) r)
          as (tr2 & Hw2 & Htr2).
        { destruct err as [e|]; [apply (IH table (log_line (LogSearchError rsr e) s1))
                                | apply IH]. }
        exists (tr1 ++ tr2). split.
        -- destruct err; rewrite Hw2, Hw1, <- app_assoc; done.
        -- intros ex Hin. apply elem_of_app in Hin as [Hin | Hin]; [by apply Htr1 |].
           destruct (Htr2 ex Hin) as (Hps & r & Hr & Hsame).
           split; [exact Hps |]. exists r. split; [by right | exact Hsame].
      * exists tr1. split; [exact Hw1 | exact Htr1].
Qed.
End Upto.

(** ** The unguarded loop *)

(** X14: a page request that fails ends a search of the batch exporter as
    well. Watch the search for any number of page requests: a request among
    them that failed is the last of them, the search has returned by then,
    and run for at least as long it returns the error of that request and
    none of the records of the pages before it. *)
Lemma Batch_aborts_on_failure {World}
    (Do : ResidentialSearchRequest -> World -> HttpOutcome * World)
    (fuel : nat) (rsr : ResidentialSearchRequest) (s : Effects World)
    (tr : list Exchange) (ex : Exchange) :
  wire (Batch.SearchResidential_upto Do fuel rsr s).2 = wire s ++ tr ->
  ex ∈ tr ->
  request_failed (received ex) = true ->
  exists err,
    page_result (received ex) = ([], Some err)
    /\ last tr = Some ex
    /\ (Batch.SearchResidential_upto Do fuel rsr s).1 = Some ([], Some err)
    /\ forall fuel', (fuel <= fuel')%nat ->
         Batch.SearchResidential Do fuel' rsr s
         = Some (([], Some err), (Batch.SearchResidential_upto Do fuel rsr s).2).
Proof.
  intros Hw Hin Hfail. unfold Batch.SearchResidential_upto in *.
  destruct (SearchResidential_loop_upto_trace Do fuel
              (set_PageNumber 0 (set_PageSize 200 rsr)) [] s)
    as (tr' & Hw' & _ & _ & Hall).
  rewrite Hw' in Hw. apply app_inv_head in Hw as <-.
  apply request_failed_error in Hfail as [err Hp].
  apply list_elem_of_lookup_1 in Hin as [i Hi].
  destruct (Hall i ex Hi) as (_ & _ & _ & _ & Herr).
  destruct (Herr [] err Hp) as [Hlast Hres].
  exists err. split; [exact Hp |]. split; [| split; [exact Hres |]].
  - rewrite last_lookup. rewrite <- Hlast. simpl. exact Hi.
  - intros fuel' Hle.
    apply (Batch_SearchResidential_fuel_mono Do fuel); [| exact Hle].
    unfold Batch.SearchResidential. rewrite SearchResidential_loop_upto_returns.
    destruct (Batch.SearchResidential_loop_upto Do fuel _ [] s) as [res s1].
    simpl in Hres. by rewrite Hres.
Qed.

Lemma Batch_aborts_on_failure_witness :
  Batch.SearchResidential (flaky_upstream 2 200 (replicate 900 sample_listing)) 7
    sample_criteria (mkEffects 0%nat [] [])
  = Some (([], Some "got non-200 code: 500, 500 Internal Server Error"),
          (Batch.SearchResidential_upto (flaky_upstream 2 200 (replicate 900 sample_listing))
             5 sample_criteria (mkEffects 0%nat [] [])).2).
Proof.
  destruct (Batch_aborts_on_failure
              (flaky_upstream 2 200 (replicate 900 sample_listing)) 5
              sample_criteria (mkEffects 0%nat [] [])
              (wire (Batch.SearchResidential_upto
                       (flaky_upstream 2 200 (replicate 900 sample_listing)) 5
                       sample_criteria (mkEffects 0%nat [] [])).2)
              (mkExchange (set_PageNumber 2 (set_PageSize 200 sample_criteria))
                 (Response 500 "500 Internal Server Error"
                    (Malformed "upstream unavailable" "invalid character"))))
    as (err & Hp & _ & _ & Hret).
  - reflexivity.
  - apply (list_elem_of_lookup_2 _ 2%nat). vm_compute. reflexivity.
  - reflexivity.
  - vm_compute in Hp. injection Hp as <-. apply (Hret 7%nat). lia.
Defined.

(** X15: watched for any number of page requests, a search of the batch
    exporter has sent, in this order, requests with [pageSize] 200 and
    [pageNumber] 0, 1, 2, ... and otherwise the fields of the criteria of its
    file, whatever paging fields the file gave, as long as the page number
    does not wrap around; every request but the last one sent so far brought
    a page with records. If the search returns, these are its requests. *)
Lemma Batch_requests_in_order {World}
    (Do : ResidentialSearchRequest -> World -> HttpOutcome * World)
    (fuel : nat) (rsr : ResidentialSearchRequest) (s : Effects World) :
  Z.of_nat fuel < 2 ^ 63 ->
  exists tr,
    wire (Batch.SearchResidential_upto Do fuel rsr s).2 = wire s ++ tr
    /\ (length tr <= fuel)%nat
    /\ (forall i ex, tr !! i = Some ex ->
          PageSize (sent ex) = 200
          /\ PageNumber (sent ex) = Z.of_nat i
          /\ ListingType (sent ex) = ListingType rsr
          /\ MinBedrooms (sent ex) = MinBedrooms rsr
          /\ MinBathrooms (sent ex) = MinBathrooms rsr
          /\ MinCarspaces (sent ex) = MinCarspaces rsr
          /\ Locations (sent ex) = Locations rsr)
    /\ (forall i ex, tr !! i = Some ex -> (S i < length tr)%nat ->
          carries_page ex = true)
    /\ ((Batch.SearchResidential_upto Do fuel rsr s).1 = None -> length tr = fuel)
    /\ (forall res s',
          Batch.SearchResidential Do fuel rsr s = Some (res, s') ->
          wire s' = wire s ++ tr).
Proof.
  intros Hfuel. unfold Batch.SearchResidential_upto, Batch.SearchResidential.
  destruct (SearchResidential_loop_upto_trace Do fuel
              (set_PageNumber 0 (set_PageSize 200 rsr)) [] s)
    as (tr & Hw & Hlen & Hgo & Hall).
  exists tr. split; [exact Hw |]. split; [exact Hlen |]. split; [| split; [| split]].
  - intros i ex Hi.
    destruct (Hall i ex Hi) as ((H1 & H2 & H3 & H4 & H5) & Hps & Hpn & _).
    split; [exact Hps |]. split; [by rewrite Hpn by (simpl; lia) |].
    destruct rsr. done.
  - intros i ex Hi. by destruct (Hall i ex Hi) as (_ & _ & _ & Hcar & _).
  - exact Hgo.
  - intros res s' Hret. rewrite SearchResidential_loop_upto_returns in Hret.
    destruct (Batch.SearchResidential_loop_upto Do fuel _ [] s) as [[r|] s1]; [| done].
    injection Hret as _ <-. exact Hw.
Qed.

Lemma Batch_requests_in_order_witness :
  exists tr,
    wire (Batch.SearchResidential_upto (paged_upstream 2 (replicate 3 sample_listing)) 3
            sample_criteria quiet).2 = wire quiet ++ tr
    /\ forall i ex, tr !! i = Some ex ->
         PageSize (sent ex) = 200 /\ PageNumber (sent ex) = Z.of_nat i.
Proof.
  destruct (Batch_requests_in_order (paged_upstream 2 (replicate 3 sample_listing)) 3
              sample_criteria quiet) as (tr & Hw & _ & Hall & _).
  - vm_compute. reflexivity.
  - exists tr. split; [exact Hw |]. intros i ex Hi.
    destruct (Hall i ex Hi) as (H1 & H2 & _). done.
Defined.

(** A search against an upstream that always has another record does not
    return, whatever the number of requests it is given. *)
Example unguarded_search_need_not_return (fuel : nat) :
  Batch.SearchResidential endless_upstream fuel sample_criteria quiet = None
  /\ length (wire (Batch.SearchResidential_upto endless_upstream fuel
                     sample_criteria quiet).2) = fuel.
Proof.
  unfold Batch.SearchResidential, Batch.SearchResidential_upto.
  generalize (set_PageNumber 0 (set_PageSize 200 sample_criteria)) as rsr.
  generalize (@nil SearchResult) as listings.
  assert (forall (s : Effects unit) listings rsr,
            Batch.SearchResidential_loop endless_upstream fuel rsr listings s = None
            /\ length (wire (Batch.SearchResidential_loop_upto endless_upstream fuel
                               rsr listings s).2) = (length (wire s) + fuel)%nat) as H.
  { induction fuel as [|fuel IH]; intros s listings rsr;
      cbn [Batch.SearchResidential_loop Batch.SearchResidential_loop_upto];
      [simpl; split; [done | lia] |].
    destruct (SearchResidentialPage_spec endless_upstream false rsr s)
      as (s1 & -> & _ & Ht). simpl.
    destruct (IH s1 (listings ++ [sample_listing])
                (set_PageNumber (wrap_int (PageNumber rsr + 1)) rsr)) as [H1 H2].
    split; [exact H1 |]. rewrite H2, Ht, length_app. simpl. lia. }
  intros listings rsr. apply (H quiet).
Qed.

(** X16: with fuel for the pages, the unguarded loop returns all the records
    of an upstream that serves them in pages of [P], after [ceil(N/P) + 1]
    page requests, whatever their number: nothing caps the search of the
    batch exporter. *)
Lemma Batch_page_requests {World}
    (Do : ResidentialSearchRequest -> World -> HttpOutcome * World)
    (P fuel : nat) (db : list SearchResult) (rsr : ResidentialSearchRequest)
    (s : Effects World) :
  (0 < P)%nat ->
  serves_pages Do P db ->
  len db < 2 ^ 63 - 1 ->
  (length db < fuel)%nat ->
  exists s',
    Batch.SearchResidential Do fuel rsr s = Some ((db, None), s')
    /\ page_requests s s' = ceil_div (len db) (Z.of_nat P) + 1.
Proof.
  intros HP Hs HN Hfuel. unfold len in HN.
  destruct (Batch_loop_returns Do P db HP (length db) 0 fuel
              (set_PageNumber 0 (set_PageSize 200 rsr)) s Hs)
    as (s' & Hcall); [done | lia | nia | lia |].
  exists s'. split; [exact Hcall |].
  destruct (Batch_SearchResidential_Run Do _ _ _ _ _ Hcall) as (tr & HR & Hw & _).
  rewrite (page_requests_app _ _ _ Hw).
  destruct (Run_every_page Do P db HP _ _ _ _ _ _ _ HR Hs) with (k := 0%nat)
    as (_ & c & Hc & Hl); [done | done | done | done | lia |].
  unfold len. rewrite (ceil_div_unique _ _ (Z.of_nat c)); lia.
Qed.

Lemma Batch_page_requests_witness :
  exists s',
    Batch.SearchResidential (paged_upstream 300 (replicate 1200 sample_listing)) 1201
      sample_criteria quiet
    = Some ((replicate 1200 sample_listing, None), s')
    /\ page_requests quiet s' = ceil_div (len (replicate 1200 sample_listing)) 300 + 1.
Proof.
  apply (Batch_page_requests (paged_upstream 300 (replicate 1200 sample_listing))
           300 1201 (replicate 1200 sample_listing) sample_criteria quiet).
  - lia.
  - intros rsr w. exists "200 OK", w. reflexivity.
  - vm_compute. reflexivity.
  - rewrite length_replicate. lia.
Defined.

(** * Further properties of the code *)

(** ** One page request *)

(** X1: one call of [SearchResidentialPage] calls the HTTP client once
    ([dc.c.Do]; what the client does on the network to answer, such as
    following a redirect, is inside that call), with the criteria it was
    given and whatever the outcome: it does not itself try again. What it
    returns and where it leaves the upstream depend on the criteria and on the
    client only: not on the log, not on earlier exchanges, and not on which
    of the two revisions' log lines it writes. The log only grows. The call
    succeeds exactly when the client answers 200 with a readable array of
    listings, which it returns; in every other case it returns an error and
    no listings. *)
Theorem SearchResidentialPage_one_call {World}
    (Do : ResidentialSearchRequest -> World -> HttpOutcome * World)
    (detailed : bool) (rsr : ResidentialSearchRequest) (s : Effects World) :
  wire (SearchResidentialPage Do detailed rsr s).2
  = wire s ++ [mkExchange rsr (Do rsr (world s)).1]
  /\ world (SearchResidentialPage Do detailed rsr s).2 = (Do rsr (world s)).2
  /\ logs s `prefix_of` logs (SearchResidentialPage Do detailed rsr s).2
  /\ (forall (detailed' : bool) (s2 : Effects World),
        world s2 = world s ->
        (SearchResidentialPage Do detailed' rsr s2).1
        = (SearchResidentialPage Do detailed rsr s).1
        /\ world (SearchResidentialPage Do detailed' rsr s2).2
           = world (SearchResidentialPage Do detailed rsr s).2
        /\ last (wire (SearchResidentialPage Do detailed' rsr s2).2)
           = last (wire (SearchResidentialPage Do detailed rsr s).2))
  /\ ((SearchResidentialPage Do detailed rsr s).1.2 = None
      <-> request_failed (Do rsr (world s)).1 = false)
  /\ ((SearchResidentialPage Do detailed rsr s).1.2 = None ->
      exists status,
        (Do rsr (world s)).1
        = Response 200 status (Listings (SearchResidentialPage Do detailed rsr s).1.1))
  /\ ((SearchResidentialPage Do detailed rsr s).1.2 <> None ->
      (SearchResidentialPage Do detailed rsr s).1.1 = []).
Proof.
  pose proof (SearchResidentialPage_logs Do detailed rsr s) as Hlogs.
  assert (forall (detailed' : bool) (s2 : Effects World),
            world s2 = world s ->
            (SearchResidentialPage Do detailed' rsr s2).1
            = (SearchResidentialPage Do detailed rsr s).1
            /\ world (SearchResidentialPage Do detailed' rsr s2).2
               = world (SearchResidentialPage Do detailed rsr s).2
            /\ last (wire (SearchResidentialPage Do detailed' rsr s2).2)
               = last (wire (SearchResidentialPage Do detailed rsr s).2)) as Hframe.
  { intros detailed' s2 Hw.
    destruct (SearchResidentialPage_spec Do detailed' rsr s2) as (s2' & -> & Hw2 & Ht2).
    destruct (SearchResidentialPage_spec Do detailed rsr s) as (s' & -> & Hw1 & Ht1).
    simpl. rewrite Hw2, Hw1, Ht2, Ht1, Hw, !last_snoc. done. }
  destruct (SearchResidentialPage_spec Do detailed rsr s) as (s' & Hspec & Hw & Ht).
  rewrite Hspec in *. simpl in *.
  split; [exact Ht |]. split; [exact Hw |]. split; [exact Hlogs |].
  split; [exact Hframe |]. clear Hframe Hlogs Hspec.
  destruct (Do rsr (world s)) as [out w]. simpl.
  destruct out as [err | code status body]; simpl.
  - split; [split; discriminate |]. split; [discriminate | done].
  - destruct (Z.eqb_spec code 200) as [-> | Hcode]; simpl.
    + destruct body; simpl; (split; [split; (done || discriminate) |]);
        (split; [(discriminate || (intros _; by eexists)) | done]).
    + destruct body; simpl; (split; [split; discriminate |]);
        (split; [discriminate | done]).
Qed.

(** ** What a search returns *)

(** X2: a search returns an error exactly when its last page request failed,
    and then the error of that request and no listings; otherwise it returns
    the pages it received, joined in the order of the requests, with nothing
    left out, repeated or cut off. *)
Theorem SearchResidential_returns_the_pages {World}
    (Do : ResidentialSearchRequest -> World -> HttpOutcome * World)
    (rsr : ResidentialSearchRequest) (s : Effects World) :
  exists tr,
    wire (OnDemand.SearchResidential Do rsr s).2 = wire s ++ tr
    /\ (forall err,
          (OnDemand.SearchResidential Do rsr s).1.2 = Some err
          <-> exists ex page,
                last tr = Some ex /\ page_result (received ex) = (page, Some err))
    /\ ((OnDemand.SearchResidential Do rsr s).1.2 <> None ->
        (OnDemand.SearchResidential Do rsr s).1.1 = [])
    /\ ((OnDemand.SearchResidential Do rsr s).1.2 = None ->
        (OnDemand.SearchResidential Do rsr s).1.1
        = concat (map (fun ex => (page_result (received ex)).1) tr)).
Proof.
  destruct (SearchResidential_Run Do rsr s) as (tr & HR & Hw).
  exists tr. split; [exact Hw |]. split; [| split].
  - intros err. split.
    + apply (Run_error Do _ _ _ _ _ _ _ _ HR).
    + intros (ex & page & Hl & Hp).
      assert (ex ∈ tr) as Hin.
      { apply last_Some in Hl as [l' ->]. set_solver. }
      destruct (Run_failure Do _ _ _ _ _ _ _ HR ex page err Hin Hp) as [-> _]. done.
  - intros Herr.
    destruct ((OnDemand.SearchResidential Do rsr s).1.2) as [err|] eqn:He; [| done].
    destruct (Run_error Do _ _ _ _ _ _ _ _ HR He) as (ex & page & Hl & Hp).
    assert (ex ∈ tr) as Hin.
    { apply last_Some in Hl as [l' ->]. set_solver. }
    destruct (Run_failure Do _ _ _ _ _ _ _ HR ex page err Hin Hp) as [-> _]. done.
  - intros Hok. rewrite (Run_success Do _ _ _ _ _ _ _ HR Hok). done.
Qed.

(** X3: a search cuts nothing off. Its guard is looked at before a request
    only, so with at least [1000 + P] records at an upstream that serves
    them in pages of [P] it returns all the records of the pages it has
    received: the first [c * P], where [c] is the least number of pages that
    hold 1000 records, after [c] page requests. These are more than 1000
    exactly when [P] does not divide 1000 (1200 for pages of 300), and
    always fewer than [1000 + P]. *)
Theorem SearchResidential_overshoot {World}
    (Do : ResidentialSearchRequest -> World -> HttpOutcome * World)
    (P : nat) (db : list SearchResult)
    (rsr : ResidentialSearchRequest) (s : Effects World) :
  (0 < P)%nat ->
  serves_pages Do P db ->
  (1000 + P <= length db)%nat ->
  exists c : nat,
    (1000 <= c * P < 1000 + P)%nat
    /\ (OnDemand.SearchResidential Do rsr s).1 = (take (c * P) db, None)
    /\ len (OnDemand.SearchResidential Do rsr s).1.1 = Z.of_nat (c * P)
    /\ page_requests s (OnDemand.SearchResidential Do rsr s).2 = Z.of_nat c
    /\ (1000 < len (OnDemand.SearchResidential Do rsr s).1.1
        <-> 1000 mod Z.of_nat P <> 0).
Proof.
  intros HP Hs HN.
  destruct (SearchResidential_Run Do rsr s) as (tr & HR & Hw).
  destruct (Run_at_cap Do P db HP _ _ _ _ _ _ 200 HR) with (k := 0%nat)
    as (c & Hc & Hres & Hl); [by intros | lia | done | done | done | lia |].
  exists c. split; [exact Hc |]. split; [exact Hres |].
  assert (len (OnDemand.SearchResidential Do rsr s).1.1 = Z.of_nat (c * P)) as Hlen.
  { rewrite Hres. unfold len. simpl. rewrite length_take. lia. }
  split; [exact Hlen |]. split.
  - rewrite (page_requests_app _ _ _ Hw). unfold len. lia.
  - rewrite Hlen. pose proof (Z.div_mod 1000 (Z.of_nat P) ltac:(lia)) as Hdm.
    pose proof (Z.mod_pos_bound 1000 (Z.of_nat P) ltac:(lia)) as Hmb.
    split.
    + intros Hgt Hmod. rewrite Hmod, Z.add_0_r in Hdm.
      rewrite Nat2Z.inj_mul in Hgt.
      assert (Z.of_nat c * Z.of_nat P < 1000 + Z.of_nat P) as Hlt by lia.
      set (q := 1000 / Z.of_nat P) in *. set (p := Z.of_nat P) in *.
      set (c' := Z.of_nat c) in *.
      assert (q < c') by nia. assert (c' < q + 1) by nia. lia.
    + intros Hmod. destruct (decide (c * P = 1000)%nat) as [Heq | Hne]; [| lia].
      destruct Hmod. replace 1000 with (Z.of_nat c * Z.of_nat P) by lia.
      apply Z.mod_mul. lia.
Qed.

Lemma SearchResidential_overshoot_witness :
  len (OnDemand.SearchResidential (paged_upstream 300 (replicate 1500 sample_listing))
         sample_criteria quiet).1.1 = 1200.
Proof.
  destruct (SearchResidential_overshoot
              (paged_upstream 300 (replicate 1500 sample_listing)) 300
              (replicate 1500 sample_listing) sample_criteria quiet)
    as (c & Hc & _ & Hlen & _).
  - lia.
  - intros rsr w. exists "200 OK", w. reflexivity.
  - rewrite length_replicate. lia.
  - rewrite Hlen. assert (c = 4%nat) as -> by lia. reflexivity.
Defined.

(** ** The aggregate table *)

Lemma WithLabelValues_Inc_comm (a b : list string) (vec : GaugeVec) :
  WithLabelValues_Inc a (WithLabelValues_Inc b vec)
  = WithLabelValues_Inc b (WithLabelValues_Inc a vec).
Proof.
  destruct (decide (a = b)) as [-> | Hab]; [done |].
  unfold WithLabelValues_Inc.
  rewrite !lookup_insert_ne by done.
  apply insert_insert_ne. done.
Qed.

Lemma aggregate_app (before after : list SearchResult) (table : GaugeVec) :
  aggregate (before ++ after) table = aggregate after (aggregate before table).
Proof. unfold aggregate. apply foldl_app. Qed.

Lemma aggregate_Permutation (listings listings' : list SearchResult) (table : GaugeVec) :
  listings ≡ₚ listings' -> aggregate listings table = aggregate listings' table.
Proof.
  intros HP. revert table.
  induction HP as [| x l l' _ IH | x y l | l l' l'' _ IH1 _ IH2]; intros table.
  - done.
  - unfold aggregate in *. simpl. apply IH.
  - unfold aggregate. simpl. by rewrite WithLabelValues_Inc_comm.
  - by rewrite IH1.
Qed.

(** X4: the table does not depend on the order in which the listings are
    counted: two sequences with the same listings, in any order, give the
    same table, from any starting table. *)
Theorem aggregate_order_irrelevant (listings listings' : list SearchResult)
    (table : GaugeVec) :
  listings ≡ₚ listings' -> aggregate listings table = aggregate listings' table.
Proof. apply aggregate_Permutation. Qed.

Lemma aggregate_order_irrelevant_witness :
  let a := mkSearchResult (mkPropertyListing
             (mkPropertyDetails "NSW" "House" (F32 false 1 0) (F32 false 3 0) 1
                "Pyrmont" "2009")) in
  aggregate [a; sample_listing; a] ∅ = aggregate [sample_listing; a; a] ∅.
Proof.
  intros a. apply (aggregate_order_irrelevant [a; sample_listing; a] [sample_listing; a; a] ∅).
  apply perm_swap.
Defined.

(** X5: counting one batch of listings after another into the same table is
    counting their concatenation, so a table filled in several rounds holds
    in each bucket the sum of what the rounds put there. *)
Theorem aggregate_in_rounds (before after : list SearchResult) (table : GaugeVec) :
  aggregate after (aggregate before table) = aggregate (before ++ after) table
  /\ (forall lvs : list string,
        default 0 (aggregate after (aggregate before table) !! lvs)
        = default 0 (table !! lvs) + bucket lvs before + bucket lvs after)
  /\ sum_counts (aggregate after (aggregate before table))
     = sum_counts table + len before + len after.
Proof.
  split; [by rewrite aggregate_app |]. split.
  - intros lvs. by rewrite !lookup_aggregate.
  - by rewrite !sum_counts_aggregate.
Qed.

Lemma dom_aggregate (listings : list SearchResult) (table : GaugeVec) :
  dom (aggregate listings table)
  = dom table ∪ (list_to_set (label_values <$> listings) : gset (list string)).
Proof.
  unfold aggregate. revert table.
  induction listings as [|l listings IH]; intros table; simpl.
  - by rewrite (right_id_L ∅ (∪)).
  - rewrite IH. unfold WithLabelValues_Inc. rewrite dom_insert_L.
    rewrite (comm_L (∪) {[label_values l]} (dom table)).
    by rewrite (assoc_L (∪)).
Qed.

Lemma size_aggregate (listings : list SearchResult) (table : GaugeVec) :
  (size (aggregate listings table) <= size table + length listings)%nat.
Proof.
  unfold aggregate. revert table.
  induction listings as [|l listings IH]; intros table; simpl.
  - lia.
  - etrans; [apply IH |]. unfold WithLabelValues_Inc.
    rewrite map_size_insert. destruct (table !! label_values l); simpl; lia.
Qed.

(** X6: the series of a table filled from empty are exactly the label values
    of the listings counted, one series for each distinct combination: never
    more series than listings, and as many as listings exactly when no two
    listings share their label values. *)
Theorem aggregate_series (listings : list SearchResult) :
  dom (aggregate listings ∅)
  = (list_to_set (label_values <$> listings) : gset (list string))
  /\ (size (aggregate listings ∅) <= length listings)%nat
  /\ (NoDup (label_values <$> listings) ->
      size (aggregate listings ∅) = length listings
      /\ forall lvs v, aggregate listings ∅ !! lvs = Some v -> v = 1).
Proof.
  split; [| split].
  - by rewrite dom_aggregate, dom_empty_L, (left_id_L ∅ (∪)).
  - pose proof (size_aggregate listings ∅) as H. rewrite map_size_empty in H. lia.
  - intros Hnd. split.
    + rewrite <- size_dom, dom_aggregate, dom_empty_L, (left_id_L ∅ (∪)).
      rewrite size_list_to_set by done. by rewrite length_fmap.
    + intros lvs v Hv.
      pose proof (lookup_aggregate lvs listings ∅) as Hb.
      rewrite Hv, lookup_empty in Hb. simpl in Hb.
      pose proof (aggregate_positive listings ∅ ltac:(intros ? ?; by rewrite lookup_empty)
                    lvs v Hv) as Hpos.
      assert (bucket lvs listings <= 1); [| lia].
      clear Hb Hpos Hv. unfold bucket, len.
      induction listings as [|l listings IH]; [simpl; lia |].
      rewrite fmap_cons in Hnd. apply NoDup_cons in Hnd as [Hnotin Hnd].
      rewrite filter_cons. case_decide as E; [| by apply IH].
      simpl length.
      destruct (filter (fun l' => label_values l' = lvs) listings) as [|l' rest] eqn:Ef;
        [simpl; lia |].
      assert (l' ∈ filter (fun l' => label_values l' = lvs) listings) as Hin
        by (rewrite Ef; left).
      apply list_elem_of_filter in Hin as [Heq Hin].
      destruct Hnotin. rewrite E, <- Heq. apply list_elem_of_fmap. by exists l'.
Qed.

(** ** Label values *)

Lemma digits_point_inj (u u' v v' : string) :
  all_digits u = true -> all_digits u' = true ->
  u +:+ "." +:+ v = u' +:+ "." +:+ v' -> u = u' /\ v = v'.
Proof.
  revert u'. induction u as [|c u IH]; intros [|c' u'] Hu Hu';
    rewrite ?string_app_cons, ?string_app_nil_l; intros Heq.
  - by injection Heq as ->.
  - injection Heq as <- _. simpl in Hu'. discriminate.
  - injection Heq as -> _. simpl in Hu. discriminate.
  - injection Heq as -> Heq. simpl in Hu, Hu'.
    apply andb_prop in Hu as [_ Hu]. apply andb_prop in Hu' as [_ Hu'].
    destruct (IH u' Hu Hu' Heq) as [-> ->]. done.
Qed.

Lemma one_decimal_head (t : N) :
  exists c rest,
    pretty (t / 10)%N +:+ "." +:+ pretty (t mod 10)%N = String c rest
    /\ is_digit c = true.
Proof.
  destruct (pretty_N_digits (t / 10)%N) as [Hd Hne].
  destruct (pretty (t / 10)%N) as [|c p]; [done |].
  exists c, (p +:+ "." +:+ pretty (t mod 10)%N). split; [by rewrite string_app_cons |].
  simpl in Hd. by apply andb_prop in Hd as [Hd _].
Qed.

Lemma one_decimal_inj (t t' : N) :
  pretty (t / 10)%N +:+ "." +:+ pretty (t mod 10)%N
  = pretty (t' / 10)%N +:+ "." +:+ pretty (t' mod 10)%N ->
  t = t'.
Proof.
  intros Heq.
  apply digits_point_inj in Heq as [Hq Hr]; try apply pretty_N_digits.
  apply (inj pretty) in Hq. apply (inj pretty) in Hr.
  rewrite (N.div_mod t 10), (N.div_mod t' 10) by done. by rewrite Hq, Hr.
Qed.

Ltac absurd_digit Heq Hc :=
  first
    [ discriminate Heq
    | inversion Heq; subst; vm_compute in Hc; discriminate Hc ].

Lemma Sprintf_1f_key (x y : float32) :
  Sprintf_1f x = Sprintf_1f y <-> float_key x = float_key y.
Proof.
  split.
  - destruct x as [s m e | s | ], y as [s' m' e' | s' | ]; simpl; intros Heq.
    + destruct (one_decimal_head (tenths m e)) as (c & rest & E & Hc).
      destruct (one_decimal_head (tenths m' e')) as (c' & rest' & E' & Hc').
      destruct s, s'.
      * injection Heq as Heq. by rewrite (one_decimal_inj _ _ Heq).
      * rewrite E' in Heq. absurd_digit Heq Hc'.
      * rewrite E in Heq. absurd_digit Heq Hc.
      * by rewrite (one_decimal_inj _ _ Heq).
    + destruct (one_decimal_head (tenths m e)) as (c & rest & E & Hc).
      rewrite E in Heq. destruct s, s'; absurd_digit Heq Hc.
    + destruct (one_decimal_head (tenths m e)) as (c & rest & E & Hc).
      rewrite E in Heq. destruct s; absurd_digit Heq Hc.
    + destruct (one_decimal_head (tenths m' e')) as (c & rest & E & Hc).
      rewrite E in Heq. destruct s, s'; absurd_digit Heq Hc.
    + by destruct s, s'.
    + by destruct s.
    + destruct (one_decimal_head (tenths m' e')) as (c & rest & E & Hc).
      rewrite E in Heq. destruct s'; absurd_digit Heq Hc.
    + by destruct s'.
    + done.
  - destruct x as [s m e | s | ], y as [s' m' e' | s' | ];
      unfold float_key, Sprintf_1f; intros Hk;
      try discriminate Hk; try done; injection Hk; intros; subst; cbv zeta;
      try match goal with H : tenths _ _ = _ |- _ => rewrite H end; reflexivity.
Qed.

(** X7: two listings are counted in the same bucket exactly when they agree
    on property type, suburb, postcode and car spaces, and their bedroom and
    bathroom counts have the same sign and round to the same tenth; the
    state of a listing plays no part. *)
Theorem label_values_same_bucket (l l' : SearchResult) :
  label_values l = label_values l'
  <-> PropertyType (Details (Listing l)) = PropertyType (Details (Listing l'))
      /\ PD_Suburb (Details (Listing l)) = PD_Suburb (Details (Listing l'))
      /\ Postcode (Details (Listing l)) = Postcode (Details (Listing l'))
      /\ float_key (Bedrooms (Details (Listing l)))
         = float_key (Bedrooms (Details (Listing l')))
      /\ float_key (Bathrooms (Details (Listing l)))
         = float_key (Bathrooms (Details (Listing l')))
      /\ CarSpaces (Details (Listing l)) = CarSpaces (Details (Listing l')).
Proof.
  unfold label_values, Sprintf_v. split.
  - intros [= H1 H2 H3 H4 H5 H6].
    apply Sprintf_1f_key in H4. apply Sprintf_1f_key in H5. apply (inj pretty) in H6.
    done.
  - intros (-> & -> & -> & H4 & H5 & ->).
    apply Sprintf_1f_key in H4. apply Sprintf_1f_key in H5. by rewrite H4, H5.
Qed.

Lemma round_half_even_double (a d : N) :
  (0 < d)%N -> round_half_even (2 * a) (2 * d) = round_half_even a d.
Proof.
  intros Hd. unfold round_half_even.
  rewrite N.Div0.div_mul_cancel_l by lia.
  rewrite N.Div0.mul_mod_distr_l.
  destruct (N.compare_spec (2 * (2 * (a mod d))) (2 * d)),
    (N.compare_spec (2 * (a mod d)) d); try lia; reflexivity.
Qed.

Lemma tenths_double (mant : N) (expo : Z) :
  tenths (2 * mant) (expo - 1) = tenths mant expo.
Proof.
  unfold tenths.
  destruct (Z.leb_spec 0 (expo - 1)) as [H1 | H1], (Z.leb_spec 0 expo) as [H0 | H0];
    try lia.
  - replace (Z.to_N expo) with (N.succ (Z.to_N (expo - 1))) by lia.
    rewrite N.pow_succ_r'. lia.
  - assert (expo = 0) as -> by lia. simpl.
    unfold round_half_even.
    replace (10 * (2 * mant))%N with (10 * mant * 2)%N by lia.
    rewrite N.div_mul by done. rewrite N.Div0.mod_mul. simpl.
    rewrite N.pow_0_r. lia.
  - replace (Z.to_N (- (expo - 1))) with (N.succ (Z.to_N (- expo))) by lia.
    rewrite N.pow_succ_r'.
    replace (10 * (2 * mant))%N with (2 * (10 * mant))%N by lia.
    apply round_half_even_double. apply N.neq_0_lt_0, N.pow_nonzero. done.
Qed.

(** X8: the text of a count depends on the number, not on the way it is
    written as a mantissa and an exponent: scaling the mantissa by a power of
    two and lowering the exponent by as much gives the same text. *)
Theorem Sprintf_1f_same_number (sign : bool) (mant : N) (expo : Z) (k : nat) :
  Sprintf_1f (F32 sign (2 ^ N.of_nat k * mant) (expo - Z.of_nat k))
  = Sprintf_1f (F32 sign mant expo).
Proof.
  assert (tenths (2 ^ N.of_nat k * mant) (expo - Z.of_nat k) = tenths mant expo) as Ht.
  { induction k as [|k IH].
    - simpl. rewrite N.mul_1_l. f_equal. lia.
    - rewrite <- IH.
      replace (2 ^ N.of_nat (S k) * mant)%N with (2 * (2 ^ N.of_nat k * mant))%N.
      + replace (expo - Z.of_nat (S k)) with (expo - Z.of_nat k - 1) by lia.
        apply tenths_double.
      + rewrite Nat2N.inj_succ, N.pow_succ_r'. lia. }
  simpl. by rewrite Ht.
Qed.

(** ** The batch scrape *)

(** X9: a scrape whose glob fails, or all of whose files cannot be opened,
    makes no request upstream and sends no sample, whatever the fuel; it
    writes one line on the log for the glob error, or one for each file, in
    the order of the files. *)
Theorem Collect_without_searches {World}
    (Do : ResidentialSearchRequest -> World -> HttpOutcome * World)
    (fuel : nat) (errs : list string) (s : Effects World) :
  Batch.Collect Do fuel (Batch.OpenFails <$> errs, None) s
  = Some (∅, mkEffects (world s) (wire s) (logs s ++ (LogOpenError <$> errs)))
  /\ forall (matches : list Batch.SearchFile) (err : string),
       Batch.Collect Do fuel (matches, Some err) s
       = Some (∅, mkEffects (world s) (wire s) (logs s ++ [LogGlobError err])).
Proof.
  split; [| done]. unfold Batch.Collect.
  generalize (∅ : GaugeVec) as table. revert s.
  induction errs as [|e errs IH]; intros s table; simpl.
  - rewrite app_nil_r. by destruct s.
  - rewrite IH. simpl. by rewrite <- app_assoc.
Qed.

Lemma same_search_next_page (rsr : ResidentialSearchRequest) :
  same_search (next_page rsr) rsr /\ PageSize (next_page rsr) = PageSize rsr.
Proof. by destruct rsr. Qed.

Lemma Run_same_search {World}
    (Do : ResidentialSearchRequest -> World -> HttpOutcome * World)
    cap rsr listings w tr res w' :
  Run Do cap rsr listings w tr res w' ->
  forall ex, ex ∈ tr -> same_search (sent ex) rsr /\ PageSize (sent ex) = PageSize rsr.
Proof.
  induction 1 as [ | ? ? ? ? ? ? ? Hlt ? Hp | ? ? ? ? ? Hlt ? Hp
                 | rsr listings ? out ? page ? ? ? Hlt ? Hp Hne HR IH ];
    intros ex Hin.
  - by apply elem_of_nil in Hin.
  - apply list_elem_of_singleton in Hin as ->. done.
  - apply list_elem_of_singleton in Hin as ->. done.
  - apply elem_of_cons in Hin as [-> | Hin]; [done |].
    destruct (IH ex Hin) as [(H1 & H2 & H3 & H4 & H5) H6].
    destruct (same_search_next_page rsr) as [(G1 & G2 & G3 & G4 & G5) G6].
    unfold same_search. rewrite H1, H2, H3, H4, H5, H6. done.
Qed.

Lemma Collect_loop_wire {World}
    (Do : ResidentialSearchRequest -> World -> HttpOutcome * World)
    (fuel : nat) (matches : list Batch.SearchFile)
    (table table' : GaugeVec) (s s' : Effects World) :
  Batch.Collect_loop Do fuel matches table s = Some (table', s') ->
  exists tr,
    wire s' = wire s ++ tr
    /\ forall ex, ex ∈ tr ->
         PageSize (sent ex) = 200
         /\ exists rsr, Batch.Decodes rsr ∈ matches /\ same_search (sent ex) rsr.
Proof.
  revert table s. induction matches as [|m matches IH]; intros table s Hr.
  - injection Hr as <- <-. exists []. split; [by rewrite app_nil_r |].
    intros ex Hin. by apply elem_of_nil in Hin.
  - simpl in Hr. destruct m as [e | rsr].
    + destruct (IH _ _ Hr) as (tr & Hw & Htr). exists tr. split; [exact Hw |].
      intros ex Hin. destruct (Htr ex Hin) as (Hps & r & Hr' & Hsame).
      split; [exact Hps |]. exists r. split; [by right | exact Hsame].
    + destruct (Batch.SearchResidential Do fuel rsr s) as [[[listings err] s1]|] eqn:E;
        [| done].
      destruct (Batch_SearchResidential_Run Do _ _ _ _ _ E) as (tr1 & HR & Hw1 & _).
      assert (exists tr2, wire s' = wire s1 ++ tr2
                /\ forall ex, ex ∈ tr2 ->
                     PageSize (sent ex) = 200
                     /\ exists r, Batch.Decodes r ∈ matches /\ same_search (sent ex) r)
        as (tr2 & Hw2 & Htr2).
      { destruct err; destruct (IH _ _ Hr) as (tr2 & Hw2 & Htr2); by exists tr2. }
      exists (tr1 ++ tr2). split; [by rewrite Hw2, Hw1, app_assoc |].
      intros ex Hin. apply elem_of_app in Hin as [Hin | Hin].
      * destruct (Run_same_search Do _ _ _ _ _ _ _ HR ex Hin) as [Hsame Hps].
        split; [exact Hps |]. exists rsr. split; [by left |].
        destruct rsr. exact Hsame.
      * destruct (Htr2 ex Hin) as (Hps & r & Hr' & Hsame).
        split; [exact Hps |]. exists r. split; [by right | exact Hsame].
Qed.

(** X10: every request a scrape makes, whether or not the scrape comes to an
    end, asks for pages of 200 records and carries the listing type, the
    minimum thresholds and the locations of one of the files it read: watch
    the scrape for any number of page requests a search, and the requests it
    has sent by then are such; if the scrape returns, these are its
    requests. A scrape sends nothing upstream on its own. *)
Theorem Collect_requests_from_files {World}
    (Do : ResidentialSearchRequest -> World -> HttpOutcome * World)
    (fuel : nat) (matches : list Batch.SearchFile) (s : Effects World) :
  exists tr,
    wire (Batch.Collect_upto Do fuel (matches, None) s).2 = wire s ++ tr
    /\ (forall ex, ex ∈ tr ->
          PageSize (sent ex) = 200
          /\ exists rsr,
               Batch.Decodes rsr ∈ matches
               /\ ListingType (sent ex) = ListingType rsr
               /\ MinBedrooms (sent ex) = MinBedrooms rsr
               /\ MinBathrooms (sent ex) = MinBathrooms rsr
               /\ MinCarspaces (sent ex) = MinCarspaces rsr
               /\ Locations (sent ex) = Locations rsr)
    /\ (forall (table : GaugeVec) (s' : Effects World),
          Batch.Collect Do fuel (matches, None) s = Some (table, s') ->
          wire s' = wire s ++ tr).
Proof.
  unfold Batch.Collect_upto, Batch.Collect.
  destruct (Collect_loop_upto_wire Do fuel matches ∅ s) as (tr & Hw & Htr).
  exists tr. split; [exact Hw |]. split; [exact Htr |].
  intros table s' Hret. rewrite Collect_loop_upto_returns in Hret.
  destruct (Batch.Collect_loop_upto Do fuel matches ∅ s) as [[t|] s1]; [| done].
  injection Hret as _ <-. exact Hw.
Qed.

(** X11: a scrape of a list of files that continues with more files starts
    as the scrape of the first list alone: what that one counted, logged and
    sent upstream is kept, the counts only grow, and the rest of the scrape
    goes on from its table and state. *)
Theorem Collect_extends {World}
    (Do : ResidentialSearchRequest -> World -> HttpOutcome * World)
    (fuel : nat) (before after : list Batch.SearchFile)
    (table : GaugeVec) (s s' : Effects World) :
  Batch.Collect Do fuel (before ++ after, None) s = Some (table, s') ->
  exists table1 s1,
    Batch.Collect Do fuel (before, None) s = Some (table1, s1)
    /\ Batch.Collect_loop Do fuel after table1 s1 = Some (table, s')
    /\ (forall lvs : list string,
          default 0 (table1 !! lvs) <= default 0 (table !! lvs))
    /\ logs s1 `prefix_of` logs s'
    /\ wire s1 `prefix_of` wire s'.
Proof.
  unfold Batch.Collect. rewrite Collect_loop_app.
  destruct (Batch.Collect_loop Do fuel before ∅ s) as [[table1 s1]|]; [| done].
  intros Hrest. exists table1, s1. split; [done |]. split; [exact Hrest |].
  destruct (Collect_loop_grows Do _ _ _ _ _ _ Hrest) as [Hc Hl].
  split; [exact Hc |]. split; [exact Hl |].
  destruct (Collect_loop_wire Do _ _ _ _ _ _ Hrest) as (tr & -> & _).
  by apply prefix_app_r.
Qed.

Lemma Collect_extends_witness :
  exists table1 s1,
    Batch.Collect market_upstream 3 ([Batch.Decodes sample_criteria], None) quiet
    = Some (table1, s1)
    /\ (forall lvs : list string,
          default 0 (table1 !! lvs)
          <= default 0
               ((default (∅, quiet)
                   (Batch.Collect market_upstream 3
                      ([Batch.Decodes sample_criteria]
                         ++ [Batch.Decodes sale_criteria; Batch.Decodes sample_criteria],
                       None) quiet)).1 !! lvs)).
Proof.
  pose (r := default (∅, quiet)
               (Batch.Collect market_upstream 3
                  ([Batch.Decodes sample_criteria]
                     ++ [Batch.Decodes sale_criteria; Batch.Decodes sample_criteria],
                   None) quiet)).
  destruct (Collect_extends market_upstream 3 [Batch.Decodes sample_criteria]
              [Batch.Decodes sale_criteria; Batch.Decodes sample_criteria]
              r.1 quiet r.2) as (table1 & s1 & H1 & _ & Hc & _).
  - vm_compute. reflexivity.
  - exists table1, s1. split; [exact H1 | exact Hc].
Defined.

(** *** The order of the files *)

Section Stateless.
Context {World : Type}.
Variable Do : ResidentialSearchRequest -> World -> HttpOutcome * World.
Hypothesis Do_stateless : stateless Do.

Lemma Batch_loop_stateless fuel rsr listings (s s2 : Effects World) :
  fst <$> Batch.SearchResidential_loop Do fuel rsr listings s
  = fst <$> Batch.SearchResidential_loop Do fuel rsr listings s2.
Proof.
  revert rsr listings s s2.
  induction fuel as [|fuel IH]; intros rsr listings s s2; [done |]. simpl.
  destruct (SearchResidentialPage_spec Do false rsr s) as (s1 & -> & _).
  destruct (SearchResidentialPage_spec Do false rsr s2) as (s3 & -> & _).
  rewrite (Do_stateless rsr (world s) (world s2)).
  destruct (page_result (Do rsr (world s2)).1) as [page [err|]]; [done |].
  destruct page; [done | apply IH].
Qed.

Lemma Collect_loop_stateless (fuel : nat) (matches : list Batch.SearchFile)
    (table : GaugeVec) (s s2 : Effects World) :
  fst <$> Batch.Collect_loop Do fuel matches table s
  = fst <$> Batch.Collect_loop Do fuel matches table s2.
Proof.
  revert table s s2.
  induction matches as [|m matches IH]; intros table s s2; [done |]. simpl.
  destruct m as [e | rsr]; [apply IH |].
  pose proof (Batch_loop_stateless fuel (set_PageNumber 0 (set_PageSize 200 rsr)) [] s s2)
    as Hsame.
  unfold Batch.SearchResidential.
  destruct (Batch.SearchResidential_loop Do fuel _ [] s) as [[[l1 e1] s1]|],
    (Batch.SearchResidential_loop Do fuel _ [] s2) as [[[l2 e2] s3]|];
    simpl in Hsame; try done.
  injection Hsame as -> ->. destruct e2; apply IH.
Qed.

(** The table after one more file, from what the file fetches on its own. *)
Lemma Collect_loop_cons_stateless (fuel : nat) (m : Batch.SearchFile)
    (matches : list Batch.SearchFile) (table : GaugeVec) (s : Effects World) :
  fst <$> Batch.Collect_loop Do fuel (m :: matches) table s
  = match fetched_in_scrape Do fuel [m] s with
    | Some listings => fst <$> Batch.Collect_loop Do fuel matches (aggregate listings table) s
    | None => None
    end.
Proof.
  simpl. destruct m as [e | rsr]; [apply Collect_loop_stateless |].
  destruct (Batch.SearchResidential Do fuel rsr s) as [[[listings [err|]] s1]|];
    simpl; [apply Collect_loop_stateless | | done].
  rewrite app_nil_r. apply Collect_loop_stateless.
Qed.

Lemma Collect_loop_Permutation (fuel : nat) (matches matches' : list Batch.SearchFile)
    (table : GaugeVec) (s : Effects World) :
  matches ≡ₚ matches' ->
  fst <$> Batch.Collect_loop Do fuel matches table s
  = fst <$> Batch.Collect_loop Do fuel matches' table s.
Proof.
  intros HP. revert table.
  induction HP as [| x l l' _ IH | x y l | l l' l'' _ IH1 _ IH2]; intros table.
  - done.
  - rewrite !Collect_loop_cons_stateless.
    destruct (fetched_in_scrape Do fuel [x] s); [apply IH | done].
  - rewrite (Collect_loop_cons_stateless fuel y (x :: l)),
      (Collect_loop_cons_stateless fuel x (y :: l)).
    destruct (fetched_in_scrape Do fuel [x] s) as [lx|] eqn:Ex,
      (fetched_in_scrape Do fuel [y] s) as [ly|] eqn:Ey;
      rewrite ?Collect_loop_cons_stateless, ?Ex, ?Ey; try done.
    rewrite <- !aggregate_app.
    by rewrite (aggregate_Permutation (ly ++ lx) (lx ++ ly) table)
      by apply Permutation_app_comm.
  - by rewrite IH1.
Qed.
End Stateless.

(** X12: against an upstream whose answers do not depend on what it was
    asked before, the table of a scrape does not depend on the order of the
    files: two lists with the same files give the same table, and one runs
    out of fuel exactly when the other does. *)
Theorem Collect_order_irrelevant {World}
    (Do : ResidentialSearchRequest -> World -> HttpOutcome * World)
    (fuel : nat) (matches matches' : list Batch.SearchFile) (s : Effects World) :
  stateless Do ->
  matches ≡ₚ matches' ->
  fst <$> Batch.Collect Do fuel (matches, None) s
  = fst <$> Batch.Collect Do fuel (matches', None) s.
Proof. intros Hst HP. by apply Collect_loop_Permutation. Qed.

Lemma Collect_order_irrelevant_witness :
  fst <$> Batch.Collect (paged_upstream 2 (replicate 3 sample_listing)) 3
            ([Batch.Decodes sample_criteria; Batch.OpenFails "no such file";
              Batch.Decodes sale_criteria], None) quiet
  = fst <$> Batch.Collect (paged_upstream 2 (replicate 3 sample_listing)) 3
              ([Batch.OpenFails "no such file"; Batch.Decodes sale_criteria;
                Batch.Decodes sample_criteria], None) quiet.
Proof.
  apply (Collect_order_irrelevant (paged_upstream 2 (replicate 3 sample_listing)) 3).
  - intros rsr w w'. reflexivity.
  - apply (Permutation_cons_append
             [Batch.OpenFails "no such file"; Batch.Decodes sale_criteria]
             (Batch.Decodes sample_criteria)).
Defined.

(** ** The on-demand handler *)

(** X17: [domainHandler] answers 200 with a table exactly when its search
    succeeds, and the table then counts the listings of this search and of
    no earlier request; otherwise it answers 500 with the error of the
    search in the body and one line on the log. It exchanges nothing with
    the upstream beyond what the search does. *)
Theorem domainHandler_outcome {World}
    (Do : ResidentialSearchRequest -> World -> HttpOutcome * World)
    (q : OnDemand.Values) (s : Effects World) :
  match (OnDemand.domainHandler Do q s).1 with
  | OnDemand.Metrics status table =>
      status = 200
      /\ (OnDemand.SearchResidential Do (OnDemand.handler_criteria q) s).1.2 = None
      /\ table
         = aggregate (OnDemand.SearchResidential Do (OnDemand.handler_criteria q) s).1.1 ∅
      /\ sum_counts table
         = len (OnDemand.SearchResidential Do (OnDemand.handler_criteria q) s).1.1
      /\ logs (OnDemand.domainHandler Do q s).2
         = logs (OnDemand.SearchResidential Do (OnDemand.handler_criteria q) s).2
  | OnDemand.ErrorText status text =>
      status = 500
      /\ exists err,
           (OnDemand.SearchResidential Do (OnDemand.handler_criteria q) s).1.2 = Some err
           /\ text = "error searching domain: " +:+ err
           /\ logs (OnDemand.domainHandler Do q s).2
              = logs (OnDemand.SearchResidential Do (OnDemand.handler_criteria q) s).2
                ++ [LogSearchError (OnDemand.handler_criteria q) err]
  end
  /\ wire (OnDemand.domainHandler Do q s).2
     = wire (OnDemand.SearchResidential Do (OnDemand.handler_criteria q) s).2
  /\ world (OnDemand.domainHandler Do q s).2
     = world (OnDemand.SearchResidential Do (OnDemand.handler_criteria q) s).2.
Proof.
  unfold OnDemand.domainHandler.
  destruct (OnDemand.SearchResidential Do (OnDemand.handler_criteria q) s)
    as [[listings [err|]] s1]; simpl.
  - split; [| done]. split; [done |]. by exists err.
  - split; [| done]. split; [done |]. split; [done |]. split; [done |].
    split; [| done]. rewrite sum_counts_aggregate, sum_counts_empty. lia.
Qed.

Lemma Get_insert_ne (q : OnDemand.Values) (key key' : string) (vs : list string) :
  key <> key' -> OnDemand.Get (<[key := vs]> q) key' = OnDemand.Get q key'.
Proof. intros Hne. unfold OnDemand.Get. by rewrite lookup_insert_ne. Qed.

Lemma Get_delete_ne (q : OnDemand.Values) (key key' : string) :
  key <> key' -> OnDemand.Get (delete key q) key' = OnDemand.Get q key'.
Proof. intros Hne. unfold OnDemand.Get. by rewrite lookup_delete_ne. Qed.

Lemma Get_insert_first (q : OnDemand.Values) (key key' : string) (v : string)
    (vs : list string) :
  OnDemand.Get (<[key := v :: vs]> q) key' = OnDemand.Get (<[key := [v]]> q) key'.
Proof.
  unfold OnDemand.Get. destruct (decide (key = key')) as [-> | Hne].
  - by rewrite !lookup_insert_eq.
  - by rewrite !lookup_insert_ne.
Qed.

Lemma Get_insert_nil (q : OnDemand.Values) (key key' : string) :
  OnDemand.Get (<[key := []]> q) key' = OnDemand.Get (delete key q) key'
  /\ OnDemand.Get (<[key := [""]]> q) key' = OnDemand.Get (delete key q) key'.
Proof.
  unfold OnDemand.Get. destruct (decide (key = key')) as [-> | Hne].
  - by rewrite !lookup_insert_eq, lookup_delete_eq.
  - by rewrite !lookup_insert_ne, lookup_delete_ne.
Qed.

(** X18: of a request's query, [domainHandler] reads the first value of
    [state], [suburb] and [postCode] and nothing else: any other parameter
    can be added, changed or removed, and further values of a parameter
    dropped, without changing what the handler does; a parameter given
    without a value, or with an empty one, is one that is absent. *)
Theorem domainHandler_reads_three_parameters {World}
    (Do : ResidentialSearchRequest -> World -> HttpOutcome * World)
    (q : OnDemand.Values) (s : Effects World) (key : string) :
  (key <> "state" -> key <> "suburb" -> key <> "postCode" ->
   forall vs : list string,
     OnDemand.domainHandler Do (<[key := vs]> q) s = OnDemand.domainHandler Do q s
     /\ OnDemand.domainHandler Do (delete key q) s = OnDemand.domainHandler Do q s)
  /\ (forall (v : string) (vs : list string),
        OnDemand.domainHandler Do (<[key := v :: vs]> q) s
        = OnDemand.domainHandler Do (<[key := [v]]> q) s)
  /\ OnDemand.domainHandler Do (<[key := []]> q) s
     = OnDemand.domainHandler Do (delete key q) s
  /\ OnDemand.domainHandler Do (<[key := [""]]> q) s
     = OnDemand.domainHandler Do (delete key q) s.
Proof.
  assert (forall q1 q2 : OnDemand.Values,
            (forall key', OnDemand.Get q1 key' = OnDemand.Get q2 key') ->
            OnDemand.domainHandler Do q1 s = OnDemand.domainHandler Do q2 s) as Hsame.
  { intros q1 q2 HG. unfold OnDemand.domainHandler, OnDemand.handler_criteria.
    by rewrite !HG. }
  split; [| split; [| split]].
  - intros H1 H2 H3 vs.
    unfold OnDemand.domainHandler, OnDemand.handler_criteria.
    by rewrite !Get_insert_ne, !Get_delete_ne.
  - intros v vs. apply Hsame. intros key'. apply Get_insert_first.
  - apply Hsame. intros key'. apply Get_insert_nil.
  - apply Hsame. intros key'. apply Get_insert_nil.
Qed.

Lemma domainHandler_reads_three_parameters_witness :
  OnDemand.domainHandler market_upstream
    (<["format" := ["text"]]> {[ "suburb" := ["Pyrmont"] ]}) quiet
  = OnDemand.domainHandler market_upstream {[ "suburb" := ["Pyrmont"] ]} quiet.
Proof.
  destruct (domainHandler_reads_three_parameters market_upstream
              {[ "suburb" := ["Pyrmont"] ]} quiet "format") as [H _].
  apply (H ltac:(discriminate) ltac:(discriminate) ltac:(discriminate) ["text"]).
Defined.

(** ** The two revisions of the loop *)

Lemma Run_unguarded {World}
    (Do : ResidentialSearchRequest -> World -> HttpOutcome * World)
    rsr listings w tr res w' :
  Run Do (Some 1000) rsr listings w tr res w' ->
  res.2 <> None \/ len res.1 < 1000 ->
  forall (fuel : nat) (s : Effects World),
    world s = w -> (length tr <= fuel)%nat ->
    exists sb,
      Batch.SearchResidential_loop Do fuel rsr listings s = Some (res, sb)
      /\ wire sb = wire s ++ tr
      /\ world sb = w'.
Proof.
  induction 1 as [ rsr listings w Hcap
                 | rsr listings w out w' page err Hlt HDo Hp
                 | rsr listings w out w' Hlt HDo Hp
                 | rsr listings w out w' page tr res w'' Hlt HDo Hp Hne HR IH ];
    intros Hres fuel s Hw Hfuel; cbn [reached below] in *; simpl in *.
  - destruct Hres as [Hres | Hres]; [done | lia].
  - destruct fuel as [|fuel]; [lia |]. simpl.
    destruct (SearchResidentialPage_spec Do false rsr s) as (s1 & -> & Hw1 & Ht1).
    rewrite Hw, HDo in *. simpl in *. rewrite Hp. by exists s1.
  - destruct fuel as [|fuel]; [lia |]. simpl.
    destruct (SearchResidentialPage_spec Do false rsr s) as (s1 & -> & Hw1 & Ht1).
    rewrite Hw, HDo in *. simpl in *. rewrite Hp. by exists s1.
  - destruct fuel as [|fuel]; [lia |]. simpl.
    destruct (SearchResidentialPage_spec Do false rsr s) as (s1 & -> & Hw1 & Ht1).
    rewrite Hw, HDo in *. simpl in *. rewrite Hp.
    destruct page as [|l page]; [done |].
    destruct (IH Hres fuel s1 Hw1 ltac:(lia)) as (sb & Hcall & Hwire & Hworld).
    exists sb. split; [exact Hcall |]. split; [| exact Hworld].
    rewrite Hwire, Ht1, <- app_assoc. done.
Qed.

(** X19: below the cap the two revisions of the loop do the same: when the
    guarded search ends in an error or with fewer than 1000 records, the
    unguarded one, given fuel for 1000 requests, returns the same result
    after the same exchanges. *)
Theorem revisions_agree_below_cap {World}
    (Do : ResidentialSearchRequest -> World -> HttpOutcome * World)
    (rsr : ResidentialSearchRequest) (s : Effects World) (fuel : nat) :
  (OnDemand.SearchResidential Do rsr s).1.2 <> None
  \/ len (OnDemand.SearchResidential Do rsr s).1.1 < 1000 ->
  (1000 <= fuel)%nat ->
  exists sb,
    Batch.SearchResidential Do fuel rsr s
    = Some ((OnDemand.SearchResidential Do rsr s).1, sb)
    /\ wire sb = wire (OnDemand.SearchResidential Do rsr s).2
    /\ world sb = world (OnDemand.SearchResidential Do rsr s).2.
Proof.
  intros Hres Hfuel.
  destruct (SearchResidential_Run Do rsr s) as (tr & HR & Hw).
  pose proof (Run_length Do _ _ _ _ _ _ HR) as Hlen.
  destruct (Run_unguarded Do _ _ _ _ _ _ HR Hres fuel s eq_refl) as (sb & Hcall & Hwire & Hworld).
  - etrans; [exact Hlen |]. unfold OnDemand.room, len. simpl. lia.
  - exists sb. split; [exact Hcall |]. split; [| exact Hworld]. by rewrite Hwire, Hw.
Qed.

Lemma revisions_agree_below_cap_witness :
  exists sb,
    Batch.SearchResidential (flaky_upstream 2 200 (replicate 900 sample_listing)) 1000
      sample_criteria (mkEffects 0%nat [] [])
    = Some ((OnDemand.SearchResidential (flaky_upstream 2 200 (replicate 900 sample_listing))
               sample_criteria (mkEffects 0%nat [] [])).1, sb)
    /\ wire sb
       = wire (OnDemand.SearchResidential (flaky_upstream 2 200 (replicate 900 sample_listing))
                 sample_criteria (mkEffects 0%nat [] [])).2.
Proof.
  destruct (revisions_agree_below_cap (flaky_upstream 2 200 (replicate 900 sample_listing))
              sample_criteria (mkEffects 0%nat [] []) 1000) as (sb & Hcall & Hwire & _).
  - left. vm_compute. discriminate.
  - lia.
  - exists sb. split; [exact Hcall | exact Hwire].
Defined.

(** ** Asking past what the upstream allows *)

Section Refusal.
Context {World : Type}.
Variable Do : ResidentialSearchRequest -> World -> HttpOutcome * World.
Variable db : list SearchResult.
Hypothesis Do_domain : domain_upstream Do db.

Lemma domain_upstream_page (rsr : ResidentialSearchRequest) (w : World) (k : nat) :
  PageSize rsr = 200 -> PageNumber rsr = Z.of_nat k -> (k < 5)%nat ->
  page_result (Do rsr w).1 = (page_of 200 db (Z.of_nat k), None).
Proof.
  intros Hps Hk Hlt. rewrite Do_domain. unfold domain_search. rewrite Hps, Hk.
  destruct (Z.ltb_spec 1000 ((Z.of_nat k + 1) * 200)); [lia | done].
Qed.

Lemma domain_upstream_refuses (rsr : ResidentialSearchRequest) (w : World) :
  PageSize rsr = 200 -> PageNumber rsr = 5 ->
  page_result (Do rsr w).1 = ([], Some "got non-200 code: 400, 400 Bad Request").
Proof.
  intros Hps Hk. rewrite Do_domain. unfold domain_search. rewrite Hps, Hk. done.
Qed.

Lemma page_of_nonempty (k : nat) :
  (k * 200 < length db)%nat -> page_of 200 db (Z.of_nat k) <> [].
Proof.
  intros Hlt Hnil. apply page_of_nil in Hnil; lia.
Qed.

Lemma Batch_loop_refused (d k fuel : nat) (rsr : ResidentialSearchRequest)
    (listings : list SearchResult) (s : Effects World) :
  (800 < length db)%nat ->
  PageSize rsr = 200 -> PageNumber rsr = Z.of_nat k ->
  (k + d = 5)%nat -> (d < fuel)%nat ->
  exists s',
    Batch.SearchResidential_loop Do fuel rsr listings s
    = Some (([], Some "got non-200 code: 400, 400 Bad Request"), s')
    /\ (length (wire s') = length (wire s) + d + 1)%nat.
Proof.
  intros Hdb. revert k fuel rsr listings s.
  induction d as [|d IH]; intros k fuel rsr listings s Hps Hk Hkd Hfuel;
    (destruct fuel as [|fuel]; [lia |]); simpl;
    destruct (SearchResidentialPage_spec Do false rsr s) as (s1 & -> & _ & Ht).
  - rewrite domain_upstream_refuses by (done || (rewrite Hk; lia)).
    exists s1. split; [done |]. rewrite Ht, length_app. simpl. lia.
  - rewrite (domain_upstream_page rsr (world s) k) by (done || lia).
    pose proof (page_of_nonempty k ltac:(lia)) as Hne.
    destruct (page_of 200 db (Z.of_nat k)) as [|l page]; [done |].
    destruct (IH (S k) fuel (set_PageNumber (wrap_int (PageNumber rsr + 1)) rsr)
                (listings ++ l :: page) s1) as (s' & Hcall & Hlen).
    + by destruct rsr.
    + simpl. rewrite wrap_int_small; lia.
    + lia.
    + lia.
    + exists s'. split; [exact Hcall |]. rewrite Hlen, Ht, length_app. simpl. lia.
Qed.

End Refusal.

(** X20: with more than 1000 records at an upstream that refuses a page
    reaching beyond the first 1000 records, the unguarded loop asks for pages
    0 to 5 and is refused the last: the search returns the error of that
    request and none of the 1000 records it had received. *)
Theorem Batch_refused_beyond_cap {World}
    (Do : ResidentialSearchRequest -> World -> HttpOutcome * World)
    (db : list SearchResult) (fuel : nat) (rsr : ResidentialSearchRequest)
    (s : Effects World) :
  domain_upstream Do db ->
  1000 < len db ->
  (6 <= fuel)%nat ->
  exists s',
    Batch.SearchResidential Do fuel rsr s
    = Some (([], Some "got non-200 code: 400, 400 Bad Request"), s')
    /\ page_requests s s' = 6.
Proof.
  intros Hup Hdb Hfuel. unfold len in Hdb.
  destruct (Batch_loop_refused Do db Hup 5 0 fuel
              (set_PageNumber 0 (set_PageSize 200 rsr)) [] s)
    as (s' & Hcall & Hlen); [lia | done | done | done | lia |].
  exists s'. split; [exact Hcall |]. unfold page_requests, len. lia.
Qed.

Lemma Batch_refused_beyond_cap_witness :
  exists s',
    Batch.SearchResidential (domain_api (replicate 1001 sample_listing)) 6
      sample_criteria quiet
    = Some (([], Some "got non-200 code: 400, 400 Bad Request"), s')
    /\ page_requests quiet s' = 6.
Proof.
  apply (Batch_refused_beyond_cap (domain_api (replicate 1001 sample_listing))
           (replicate 1001 sample_listing) 6 sample_criteria quiet).
  - intros rsr w. reflexivity.
  - vm_compute. reflexivity.
  - lia.
Defined.


